(** * Inkling: the capture/upload/result state machine and the OCR relay

    A shallow embedding of the client component [App] (handlers
    [handleOCR], [handleFileSelect], [startCamera], [stopCamera],
    [capturePhoto], [handleReset], [handleCopy]) and of the server route
    [POST /api/ocr] of [server.js].

    JavaScript strings are sequences of UTF-16 code units, React state and
    refs are fields of one record, and every handler is a computation in a
    small monad that threads that record, records the calls it makes (React
    setters and platform APIs, in program order) and may complete abruptly
    with a thrown value.  An [await] splits a handler in two: the part run
    on the call, and the continuation run when the awaited promise
    settles. *)

From Stdlib Require Import List String Ascii NArith ZArith Bool Lia.
From Stdlib Require QArith.QArith_base.
Import ListNotations.

Set Implicit Arguments.
Local Set Warnings "-register-all".

(** ** JavaScript strings and values *)

Module Js.

(** A string is its list of UTF-16 code units. *)
Definition jsstring := list N.

(** An ASCII literal of the source text. *)
Definition lit (s : string) : jsstring :=
  map N_of_ascii (list_ascii_of_string s).

Fixpoint eqb (a b : jsstring) : bool :=
  match a, b with
  | [], [] => true
  | x :: a', y :: b' => N.eqb x y && eqb a' b'
  | _, _ => false
  end.

(** [String.prototype.startsWith]. *)
Fixpoint startsWith (s prefix : jsstring) : bool :=
  match prefix, s with
  | [], _ => true
  | p :: prefix', c :: s' => N.eqb p c && startsWith s' prefix'
  | _ :: _, [] => false
  end.

(** WhiteSpace and LineTerminator code points of ECMA-262, the ones
    [String.prototype.trim] strips. *)
Definition isWhiteSpace (c : N) : bool :=
  ((9 <=? c) && (c <=? 13) || (c =? 32) || (c =? 160) || (c =? 5760)
   || (8192 <=? c) && (c <=? 8202) || (c =? 8232) || (c =? 8233)
   || (c =? 8239) || (c =? 8287) || (c =? 12288) || (c =? 65279))%N.

Fixpoint trimStart (s : jsstring) : jsstring :=
  match s with
  | [] => []
  | c :: s' => if isWhiteSpace c then trimStart s' else s
  end.

Definition trimEnd (s : jsstring) : jsstring := rev (trimStart (rev s)).

Definition trim (s : jsstring) : jsstring := trimEnd (trimStart s).

(** A value as [JSON.parse] produces it.  An object is its table of own
    properties (keys are unique after parsing); the payload of a number
    is never inspected by this program. *)
Inductive JsValue : Type :=
| JNull
| JBool (b : bool)
| JNumber (n : Z)
| JString (s : jsstring)
| JArray (items : list JsValue)
| JObject (fields : list (jsstring * JsValue)).

Fixpoint ownProperty (fields : list (jsstring * JsValue)) (k : jsstring)
  : option JsValue :=
  match fields with
  | [] => None
  | (k', v) :: rest => if eqb k' k then Some v else ownProperty rest k
  end.

(** What a [throw] or a rejected promise carries: an [Error] instance
    with its [message], or any other value. *)
Inductive Thrown : Type :=
| ErrorObj (message : jsstring)
| NonError (v : JsValue).

(** The message of the TypeError raised by reading a property of
    [null].  The wording is the engine's (V8's here); nothing below
    depends on it. *)
Definition nullReadMessage (k : jsstring) : jsstring :=
  lit "Cannot read properties of null (reading '" ++ k ++ lit "')".

(** [v.k] for a parsed JSON value [v] and a key [k] that no prototype
    defines (such as [text]): [None] is [undefined]. *)
Definition getProperty (v : JsValue) (k : jsstring)
  : Thrown + option JsValue :=
  match v with
  | JNull => inl (ErrorObj (nullReadMessage k))
  | JObject fields => inr (ownProperty fields k)
  | JBool _ | JNumber _ | JString _ | JArray _ => inr None
  end.

(** Truthiness of a [string | null]. *)
Definition truthy (o : option jsstring) : bool :=
  match o with
  | Some (_ :: _) => true
  | _ => false
  end.

End Js.

Import Js.

(** ** Data of the component *)

(** [type Mode = "home" | "camera" | "processing" | "result"]. *)
Inductive Mode : Type := Home | Camera | Processing | Result.

Definition Track := N.

(** A [MediaStream]: its tracks and the size of the frames it delivers. *)
Record MediaStream : Type := mkStream {
  getTracks : list Track;
  frameWidth : N;
  frameHeight : N
}.

Record Blob : Type := mkBlob { blobBytes : list N; blobType : jsstring }.

Record File : Type := mkFile {
  fileName : jsstring;
  fileType : jsstring;
  fileBytes : list N
}.

(** The mounted [<video>] and [<canvas>] elements. *)
Record Video : Type := mkVideo { srcObject : option MediaStream }.

Definition videoWidth (v : Video) : N :=
  match srcObject v with Some st => frameWidth st | None => 0%N end.

Definition videoHeight (v : Video) : N :=
  match srcObject v with Some st => frameHeight st | None => 0%N end.

Record Canvas : Type := mkCanvas { width : N; height : N }.

(** A [Response] of [fetch]: [json] is what [response.json()] settles
    with, the parsed body or the rejection. *)
Record Response : Type := mkResponse {
  status : Z;
  statusText : jsstring;
  json : Thrown + JsValue
}.

(** [response.ok]: the status is in the range 200-299. *)
Definition ok (r : Response) : bool :=
  ((200 <=? status r) && (status r <=? 299))%Z.

(** An operation handed to the platform whose promise or callback has not
    settled yet. *)
Inductive Task : Type :=
| TGetUserMedia
| TBindTimer (stream : MediaStream)
| TToBlob
| TReader (file : File)
| TFetch (file : File).

(** The calls a handler makes, in program order. *)
Inductive Call : Type :=
| CSetMode (m : Mode)
| CSetResult (r : option jsstring)
| CSetError (e : option jsstring)
| CSetPreview (p : option jsstring)
| CGetUserMedia
| CSetTimeout (ms : N)
| CTrackStop (t : Track)
| CDrawImage
| CToDataURL (type : jsstring)
| CToBlob (type : jsstring) (quality : QArith_base.Q)
| CReadAsDataURL (file : File)
| CFetch (url method : jsstring) (field : jsstring) (file : File)
| CClipboardWrite (text : jsstring).

(** The state of [App]: the four [useState] cells, the four refs (a ref to
    an element is [None] while the element is not mounted; the file input
    is kept as its [value]), and what the platform holds: the tracks that
    have not been stopped and the operations still outstanding. *)
Record AppState : Type := mkApp {
  mode : Mode;
  result : option jsstring;
  error : option jsstring;
  preview : option jsstring;
  fileInputRef : option jsstring;
  videoRef : option Video;
  canvasRef : option Canvas;
  streamRef : option MediaStream;
  liveTracks : list Track;
  pending : list Task
}.

Definition with_mode (m : Mode) (s : AppState) : AppState :=
  mkApp m (result s) (error s) (preview s) (fileInputRef s) (videoRef s)
        (canvasRef s) (streamRef s) (liveTracks s) (pending s).

Definition with_result (r : option jsstring) (s : AppState) : AppState :=
  mkApp (mode s) r (error s) (preview s) (fileInputRef s) (videoRef s)
        (canvasRef s) (streamRef s) (liveTracks s) (pending s).

Definition with_error (e : option jsstring) (s : AppState) : AppState :=
  mkApp (mode s) (result s) e (preview s) (fileInputRef s) (videoRef s)
        (canvasRef s) (streamRef s) (liveTracks s) (pending s).

Definition with_preview (p : option jsstring) (s : AppState) : AppState :=
  mkApp (mode s) (result s) (error s) p (fileInputRef s) (videoRef s)
        (canvasRef s) (streamRef s) (liveTracks s) (pending s).

Definition with_fileInput (v : option jsstring) (s : AppState) : AppState :=
  mkApp (mode s) (result s) (error s) (preview s) v (videoRef s)
        (canvasRef s) (streamRef s) (liveTracks s) (pending s).

Definition with_video (v : option Video) (s : AppState) : AppState :=
  mkApp (mode s) (result s) (error s) (preview s) (fileInputRef s) v
        (canvasRef s) (streamRef s) (liveTracks s) (pending s).

Definition with_canvas (c : option Canvas) (s : AppState) : AppState :=
  mkApp (mode s) (result s) (error s) (preview s) (fileInputRef s)
        (videoRef s) c (streamRef s) (liveTracks s) (pending s).

Definition with_stream (st : option MediaStream) (s : AppState) : AppState :=
  mkApp (mode s) (result s) (error s) (preview s) (fileInputRef s)
        (videoRef s) (canvasRef s) st (liveTracks s) (pending s).

Definition with_liveTracks (l : list Track) (s : AppState) : AppState :=
  mkApp (mode s) (result s) (error s) (preview s) (fileInputRef s)
        (videoRef s) (canvasRef s) (streamRef s) l (pending s).

Definition with_pending (p : list Task) (s : AppState) : AppState :=
  mkApp (mode s) (result s) (error s) (preview s) (fileInputRef s)
        (videoRef s) (canvasRef s) (streamRef s) (liveTracks s) p.

(** The first render: [useState] and [useRef] initial values, the main
    shell (with its file input) mounted. *)
Definition initial : AppState :=
  mkApp Home None None None (Some []) None None None [] [].

(** ** The handler monad *)

Inductive Completion (A : Type) : Type :=
| Normal (a : A)
| Abrupt (e : Thrown).

Arguments Abrupt {A} e.

Record Run (A : Type) : Type := mkRun {
  completion : Completion A;
  final : AppState;
  calls : list Call
}.

Definition M (A : Type) : Type := AppState -> Run A.

Definition ret {A : Type} (a : A) : M A :=
  fun s => mkRun (Normal a) s [].

Definition bind {A B : Type} (m : M A) (k : A -> M B) : M B :=
  fun s =>
    match m s with
    | mkRun (Normal a) s1 c1 =>
        match k a s1 with
        | mkRun o s2 c2 => mkRun o s2 (c1 ++ c2)
        end
    | mkRun (Abrupt e) s1 c1 => mkRun (Abrupt e) s1 c1
    end.

Declare Scope js_scope.
Delimit Scope js_scope with js.
Notation "x <- m ;; k" := (bind m (fun x => k))
  (at level 61, m at next level, right associativity) : js_scope.
Notation "m ;; k" := (bind m (fun _ => k))
  (at level 61, right associativity) : js_scope.
Open Scope js_scope.

(** [throw e]. *)
Definition throw {A : Type} (e : Thrown) : M A :=
  fun s => mkRun (Abrupt e) s [].

(** [try { body } catch (err) { handler err }]. *)
Definition tryCatch (body : M unit) (handler : Thrown -> M unit) : M unit :=
  fun s =>
    match body s with
    | mkRun (Normal a) s1 c1 => mkRun (Normal a) s1 c1
    | mkRun (Abrupt e) s1 c1 =>
        match handler e s1 with
        | mkRun o s2 c2 => mkRun o s2 (c1 ++ c2)
        end
    end.

(** Resuming after [await p], [p] settled: a rejection is thrown at the
    [await]. *)
Definition await {A : Type} (settled : Thrown + A) : M A :=
  match settled with
  | inl e => throw e
  | inr a => ret a
  end.

Definition get {A : Type} (proj : AppState -> A) : M A :=
  fun s => mkRun (Normal (proj s)) s [].

Definition modify (f : AppState -> AppState) : M unit :=
  fun s => mkRun (Normal tt) (f s) [].

Definition call (c : Call) : M unit :=
  fun s => mkRun (Normal tt) s [c].

(** Hands an operation to the platform. *)
Definition spawn (t : Task) : M unit :=
  modify (fun s => with_pending (pending s ++ [t]) s).

Fixpoint forEach {A : Type} (l : list A) (f : A -> M unit) : M unit :=
  match l with
  | [] => ret tt
  | x :: l' => f x ;; forEach l' f
  end.

(** The React setters. *)
Definition setMode (m : Mode) : M unit :=
  call (CSetMode m) ;; modify (with_mode m).
Definition setResult (r : option jsstring) : M unit :=
  call (CSetResult r) ;; modify (with_result r).
Definition setError (e : option jsstring) : M unit :=
  call (CSetError e) ;; modify (with_error e).
Definition setPreview (p : option jsstring) : M unit :=
  call (CSetPreview p) ;; modify (with_preview p).

(** Evaluating an expression that may throw. *)
Definition evaluate {A : Type} (v : Thrown + A) : M A := await v.

(** ** The handlers of [App] *)

(** [handleOCR], up to its first [await].  The statements of the [try]
    block that run here ([new FormData], [append], the call of [fetch])
    do not throw. *)
Definition handleOCR (file : File) : M unit :=
  setMode Processing ;;
  setError None ;;
  setResult None ;;
  call (CFetch (lit "/api/ocr") (lit "POST") (lit "image") file) ;;
  spawn (TFetch file).

(** The rest of [handleOCR], run once [fetch] has settled with [fetched].
    The second [await], of [response.json()], is resumed here as well:
    the handler touches no state between the two, so the states seen by
    other handlers are the same. *)
Definition handleOCR_settled (fetched : Thrown + Response) : M unit :=
  tryCatch
    (response <- await fetched ;;
     (if negb (ok response)
      then throw (ErrorObj (lit "Server error: " ++ statusText response))
      else ret tt) ;;
     data <- await (json response) ;;
     text <- evaluate (getProperty data (lit "text")) ;;
     setResult (Some match text with
                     | Some (JString t) => trim t
                     | _ => []
                     end) ;;
     setMode Result)
    (fun err =>
       setError (Some match err with
                      | ErrorObj message => message
                      | NonError _ => lit "OCR failed"
                      end) ;;
       setMode Result).

(** [handleFileSelect]; [files] is [e.target.files]. *)
Definition handleFileSelect (files : list File) : M unit :=
  match files with
  | [] => ret tt
  | file :: _ =>
      call (CReadAsDataURL file) ;;
      spawn (TReader file) ;;
      handleOCR file
  end.

(** [reader.onload]; [dataURL] is [event.target.result]. *)
Definition reader_onload (dataURL : jsstring) : M unit :=
  setPreview (Some dataURL).

(** [startCamera], up to the [await] of [getUserMedia]. *)
Definition startCamera : M unit :=
  setError None ;;
  call CGetUserMedia ;;
  spawn TGetUserMedia.

(** The rest of [startCamera], run once [getUserMedia] has settled. *)
Definition startCamera_settled (granted : Thrown + MediaStream) : M unit :=
  tryCatch
    (stream <- await granted ;;
     modify (with_stream (Some stream)) ;;
     setMode Camera ;;
     call (CSetTimeout 50) ;;
     spawn (TBindTimer stream))
    (fun _ => setError (Some (lit "Camera access denied or unavailable"))).

(** The callback of [setTimeout] in [startCamera]. *)
Definition startCamera_timeout (stream : MediaStream) : M unit :=
  video <- get videoRef ;;
  match video with
  | Some _ => modify (with_video (Some (mkVideo (Some stream))))
  | None => ret tt
  end.

(** [t.stop()]: the track is no longer live; stopping a track that has
    ended already does nothing. *)
Definition trackStop (t : Track) : M unit :=
  call (CTrackStop t) ;;
  modify (fun s =>
            with_liveTracks
              (filter (fun t' => negb (N.eqb t' t)) (liveTracks s)) s).

Definition stopCamera : M unit :=
  stream <- get streamRef ;;
  match stream with
  | Some st => forEach (getTracks st) trackStop
  | None => ret tt
  end ;;
  modify (with_stream None).

(** [capturePhoto]; [frame] is what [canvas.toDataURL] returns for the
    frame drawn. *)
Definition capturePhoto (frame : jsstring) : M unit :=
  video <- get videoRef ;;
  canvas <- get canvasRef ;;
  match video, canvas with
  | Some v, Some _ =>
      modify (with_canvas (Some (mkCanvas (videoWidth v) (videoHeight v)))) ;;
      call CDrawImage ;;
      call (CToDataURL (lit "image/jpeg")) ;;
      setPreview (Some frame) ;;
      stopCamera ;;
      call (CToBlob (lit "image/jpeg") (QArith_base.Qmake 9 10)) ;;
      spawn TToBlob
  | _, _ => ret tt
  end.

(** The callback of [canvas.toBlob] in [capturePhoto]. *)
Definition capturePhoto_blob (blob : option Blob) : M unit :=
  match blob with
  | Some b =>
      handleOCR (mkFile (lit "capture.jpg") (lit "image/jpeg") (blobBytes b))
  | None => ret tt
  end.

Definition handleReset : M unit :=
  stopCamera ;;
  setMode Home ;;
  setResult None ;;
  setError None ;;
  setPreview None ;;
  input <- get fileInputRef ;;
  match input with
  | Some _ => modify (with_fileInput (Some []))
  | None => ret tt
  end.

Definition handleCopy : M unit :=
  r <- get result ;;
  if truthy r
  then call (CClipboardWrite match r with Some text => text | None => [] end)
  else ret tt.

(** [onChange] of the result [<textarea>]. *)
Definition textarea_onChange (value : jsstring) : M unit :=
  setResult (Some value).

(** ** Rendering and events *)

(** The commit that follows a handler: in camera mode the component
    returns the viewfinder ([<video>], [<canvas>]), otherwise the main
    shell with the file input.  An element that stays mounted keeps its
    DOM state; one that is mounted anew starts empty. *)
Definition render (s : AppState) : AppState :=
  match mode s with
  | Camera =>
      with_fileInput None
        (with_canvas (Some match canvasRef s with
                           | Some c => c
                           | None => mkCanvas 300 150
                           end)
           (with_video (Some match videoRef s with
                             | Some v => v
                             | None => mkVideo None
                             end) s))
  | _ =>
      with_fileInput (Some match fileInputRef s with
                           | Some v => v
                           | None => []
                           end)
        (with_canvas None (with_video None s))
  end.

(** How an outstanding operation settles. *)
Inductive Settlement : Type :=
| MediaSettled (granted : Thrown + MediaStream)
| TimerFired
| BlobEncoded (blob : option Blob)
| ReaderLoaded (dataURL : jsstring)
| FetchSettled (fetched : Thrown + Response).

(** What can happen to the component: the user operates a control, or
    the [i]-th outstanding operation settles. *)
Inductive Event : Type :=
| ChangeFile (files : list File)
| ClickScan
| ClickCancel
| ClickShutter (frame : jsstring)
| ClickTryAgain
| ClickScanAgain
| ClickCopy
| EditResult (value : jsstring)
| Settle (i : nat) (how : Settlement).

(** The controls the JSX offers in a state.  The file input is operated
    through its [<label>], rendered under [mode === "home"]; the input
    element itself stays mounted in the whole main shell. *)
Definition offered (e : Event) (s : AppState) : bool :=
  match e, mode s with
  | ChangeFile _, Home => true
  | ClickScan, Home => true
  | ClickCancel, Camera => true
  | ClickShutter _, Camera => true
  | ClickTryAgain, Result => truthy (error s)
  | ClickScanAgain, Result => negb (truthy (error s))
  | ClickCopy, Result => negb (truthy (error s))
  | EditResult _, Result => negb (truthy (error s))
  | _, _ => false
  end.

(** The [value] the browser gives a file input for a selection. *)
Definition inputValue (files : list File) : jsstring :=
  match files with
  | [] => []
  | file :: _ => lit "C:" ++ [92%N] ++ lit "fakepath" ++ [92%N] ++ fileName file
  end.

Fixpoint removeNth {A : Type} (i : nat) (l : list A) : list A :=
  match i, l with
  | _, [] => []
  | O, _ :: l' => l'
  | S i', x :: l' => x :: removeNth i' l'
  end.

(** The continuation an operation runs when it settles.  A stream the
    platform grants comes with its tracks live. *)
Definition resume (t : Task) (how : Settlement) : option (M unit) :=
  match t, how with
  | TGetUserMedia, MediaSettled granted =>
      Some (match granted with
            | inr stream =>
                modify (fun s =>
                          with_liveTracks (liveTracks s ++ getTracks stream) s)
            | inl _ => ret tt
            end ;;
            startCamera_settled granted)
  | TBindTimer stream, TimerFired => Some (startCamera_timeout stream)
  | TToBlob, BlobEncoded blob => Some (capturePhoto_blob blob)
  | TReader _, ReaderLoaded dataURL => Some (reader_onload dataURL)
  | TFetch _, FetchSettled fetched => Some (handleOCR_settled fetched)
  | _, _ => None
  end.

(** The handler an event runs, if the event can happen in [s]. *)
Definition dispatch (e : Event) (s : AppState) : option (M unit) :=
  match e with
  | Settle i how =>
      match nth_error (pending s) i with
      | Some t =>
          match resume t how with
          | Some k =>
              Some (modify (fun s => with_pending (removeNth i (pending s)) s) ;;
                    k)
          | None => None
          end
      | None => None
      end
  | _ =>
      if offered e s then
        Some match e with
             | ChangeFile files =>
                 modify (with_fileInput (Some (inputValue files))) ;;
                 handleFileSelect files
             | ClickScan => startCamera
             | ClickShutter frame => capturePhoto frame
             | ClickCancel | ClickTryAgain | ClickScanAgain => handleReset
             | ClickCopy => handleCopy
             | EditResult value => textarea_onChange value
             | Settle _ _ => ret tt
             end
      else None
  end.

(** One event: its handler runs to completion, then React commits. *)
Definition step (e : Event) (s : AppState) : option AppState :=
  match dispatch e s with
  | Some handler => Some (render (final (handler s)))
  | None => None
  end.

Fixpoint run (events : list Event) (s : AppState) : option AppState :=
  match events with
  | [] => Some s
  | e :: rest =>
      match step e s with
      | Some s' => run rest s'
      | None => None
      end
  end.

(** An operation whose continuation writes [mode]. *)
Definition writesMode (t : Task) : bool :=
  match t with
  | TGetUserMedia | TToBlob | TFetch _ => true
  | TBindTimer _ | TReader _ => false
  end.

Definition userEvent (e : Event) : bool :=
  match e with
  | Settle _ _ => false
  | _ => true
  end.

(** A run in which the user operates a control only when no operation
    that will write [mode] is outstanding. *)
Definition stepSequential (e : Event) (s : AppState) : option AppState :=
  if userEvent e && existsb writesMode (pending s) then None else step e s.

Fixpoint runSequential (events : list Event) (s : AppState)
  : option AppState :=
  match events with
  | [] => Some s
  | e :: rest =>
      match stepSequential e s with
      | Some s' => runSequential rest s'
      | None => None
      end
  end.

(** The transitions of [Mode] the design allows. *)
Definition edge (a b : Mode) : bool :=
  match a, b with
  | Home, Camera | Home, Processing => true
  | Camera, Processing | Camera, Home => true
  | Processing, Result => true
  | Result, Home => true
  | _, _ => false
  end.

(** ** The server route [POST /api/ocr]

    [server.js] registers [upload.single("image")] and then the route
    handler, and no error-handling middleware.  The file filter, the
    size limit and the handler are those of [server.js]; how multer's
    [single] walks the file parts and passes an error to [next], and how
    Express answers an error nobody handles, follow the documented
    behaviour of the two libraries. *)

Module Server.

(** A file part of the multipart body. *)
Record Part : Type := mkPart {
  fieldname : jsstring;
  originalname : jsstring;
  mimetype : jsstring;
  size : N
}.

(** An error value passed to [next]: its [message], and its [status]
    (or [statusCode]) property when it has one. *)
Record NodeError : Type := mkError {
  message : jsstring;
  errStatus : option Z
}.

(** [new Error(message)]. *)
Definition newError (message : jsstring) : NodeError :=
  mkError message None.

(** multer's [MulterError]: a code with its message, and no status. *)
Inductive MulterCode : Type := LIMIT_FILE_SIZE | LIMIT_UNEXPECTED_FILE.

Definition multerError (code : MulterCode) : NodeError :=
  mkError match code with
          | LIMIT_FILE_SIZE => lit "File too large"
          | LIMIT_UNEXPECTED_FILE => lit "Unexpected field"
          end None.

(** The [fileFilter] option: [cb(null, true)] or [cb(new Error(...))]. *)
Definition fileFilter (file : Part) : NodeError + bool :=
  if startsWith (mimetype file) (lit "image/")
  then inr true
  else inl (newError (lit "Only image files are allowed")).

(** [limits.fileSize]. *)
Definition fileSize : N := 50 * 1024 * 1024.

(** [upload.single(name)] over the file parts in order, [left] files
    still accepted for the field: a part of another field or one too
    many is an unexpected file, then the filter decides, then the size
    limit applies; the first error goes to [next] and ends the walk.
    The result is [req.file]. *)
Fixpoint singleFrom (name : jsstring) (left : nat) (parts : list Part)
         (stored : option Part) : NodeError + option Part :=
  match parts with
  | [] => inr stored
  | part :: rest =>
      match (if Js.eqb (fieldname part) name then left else O) with
      | O => inl (multerError LIMIT_UNEXPECTED_FILE)
      | S left' =>
          match fileFilter part with
          | inl err => inl err
          | inr false => singleFrom name left' rest stored
          | inr true =>
              if (fileSize <? size part)%N
              then inl (multerError LIMIT_FILE_SIZE)
              else singleFrom name left' rest (Some part)
          end
      end
  end.

Definition single (name : jsstring) (parts : list Part)
  : NodeError + option Part :=
  singleFrom name 1 parts None.

Inductive Body : Type :=
| JsonBody (v : JsValue)
| ErrorPage.

Record HttpResponse : Type := mkHttp { statusCode : Z; body : Body }.

(** How [anthropic.messages.create] settles: rejected with an error
    carrying a message, or fulfilled with a message whose content
    blocks have a [text] or not. *)
Definition Upstream : Type := jsstring + list (option jsstring).

Definition failure (details : jsstring) : HttpResponse :=
  mkHttp 500
    (JsonBody (JObject [(lit "error", JString (lit "Failed to process image"));
                        (lit "details", JString details)])).

(** The route handler; [file] is [req.file], [now] is
    [new Date().toISOString()]. *)
Definition ocrHandler (file : option Part) (upstream : Upstream)
           (now : jsstring) : HttpResponse :=
  match file with
  | None =>
      mkHttp 400
        (JsonBody (JObject [(lit "error", JString (lit "No image provided"))]))
  | Some _ =>
      match upstream with
      | inl details => failure details
      | inr [] =>
          failure (lit "Cannot read properties of undefined (reading 'text')")
      | inr (None :: _) =>
          failure (lit "Cannot read properties of undefined (reading 'trim')")
      | inr (Some text :: _) =>
          mkHttp 200
            (JsonBody (JObject [(lit "success", JBool true);
                                (lit "text", JString (trim text));
                                (lit "timestamp", JString now)]))
      end
  end.

(** Express's default error handler: the status is the error's own
    when that is a 4xx or 5xx code, and 500 otherwise. *)
Definition defaultErrorHandler (err : NodeError) : HttpResponse :=
  mkHttp match errStatus err with
         | Some code =>
             if ((400 <=? code) && (code <? 600))%Z then code else 500%Z
         | None => 500%Z
         end ErrorPage.

(** [app.post("/api/ocr", upload.single("image"), handler)]. *)
Definition postOcr (parts : list Part) (upstream : Upstream)
           (now : jsstring) : HttpResponse :=
  match single (lit "image") parts with
  | inl err => defaultErrorHandler err
  | inr file => ocrHandler file upstream now
  end.

End Server.

(** ** Notions used in the statements, and sample data *)

Definition tracksOf (stream : option MediaStream) : list Track :=
  match stream with
  | Some st => getTracks st
  | None => []
  end.

(** The live tracks left after [stop] has been called on each of [ts]. *)
Fixpoint stopAll (ts live : list Track) : list Track :=
  match ts with
  | [] => live
  | t :: ts' => stopAll ts' (filter (fun t' => negb (N.eqb t' t)) live)
  end.

Definition twoTrackStream : MediaStream := mkStream [1%N; 2%N] 640 480.

(** A camera view whose stream is still held although its tracks have
    ended. *)
Definition endedCameraState : AppState :=
  mkApp Camera None None None None (Some (mkVideo (Some twoTrackStream)))
        (Some (mkCanvas 300 150)) (Some twoTrackStream) [] [].

Definition jpeg : jsstring := lit "image/jpeg".

(** In camera mode the viewfinder elements are mounted. *)
Definition viewfinderMounted (s : AppState) : Prop :=
  mode s = Camera ->
  exists v c, videoRef s = Some v /\ canvasRef s = Some c.

(** Scan, camera granted. *)
Definition scanGranted : list Event :=
  [ClickScan; Settle 0 (MediaSettled (inr twoTrackStream))].

(** The two ways the continuation of [handleOCR] can run from [s]:
    [setResult(text); setMode("result")], or
    [setError(message); setMode("result")]; both complete normally. *)
Definition succeeded (text : jsstring) (s : AppState) : Run unit :=
  mkRun (Normal tt) (with_mode Result (with_result (Some text) s))
        [CSetResult (Some text); CSetMode Result].

Definition failed (message : jsstring) (s : AppState) : Run unit :=
  mkRun (Normal tt) (with_mode Result (with_error (Some message) s))
        [CSetError (Some message); CSetMode Result].

(** The string under [text] of a parsed body, if the body has one. *)
Definition textField (body : JsValue) : option jsstring :=
  match body with
  | JObject fields =>
      match ownProperty fields (lit "text") with
      | Some (JString t) => Some t
      | _ => None
      end
  | _ => None
  end.

Definition catchMessage (err : Thrown) : jsstring :=
  match err with
  | ErrorObj message => message
  | NonError _ => lit "OCR failed"
  end.

Definition sampleFile : File :=
  mkFile (lit "notes.jpg") (lit "image/jpeg") [255%N; 216%N; 255%N].

(** The response of scenario 2: status 500, body
    [{error: "Failed to process image", details: "upstream timeout"}]. *)
Definition response500 : Response :=
  mkResponse 500 (lit "Internal Server Error")
    (inr (JObject [(lit "error", JString (lit "Failed to process image"));
                   (lit "details", JString (lit "upstream timeout"))])).

(** The responses of scenarios 1 and 5. *)
Definition responseHello : Response :=
  mkResponse 200 (lit "OK")
    (inr (JObject [(lit "success", JBool true);
                   (lit "text", JString (lit " Hello world "));
                   (lit "timestamp", JString (lit "2024-01-01T00:00:00.000Z"))])).

Definition responseNoText : Response :=
  mkResponse 200 (lit "OK") (inr (JObject [(lit "success", JBool true)])).

Definition responseBadJson : Response :=
  mkResponse 200 (lit "OK")
    (inl (ErrorObj (lit "Unexpected token < in JSON at position 0"))).

Definition sameControl (s s' : AppState) : Prop :=
  mode s' = mode s /\ streamRef s' = streamRef s.

Definition capturedFile (b : Blob) : File :=
  mkFile (lit "capture.jpg") (lit "image/jpeg") (blobBytes b).

Definition homeHasNoStream (s : AppState) : Prop :=
  mode s = Home -> streamRef s = None.

(** Scan, camera granted, cancel. *)
Definition scanThenCancel : list Event :=
  [ClickScan; Settle 0 (MediaSettled (inr twoTrackStream)); ClickCancel].

Definition racingEvents : list Event :=
  [ClickScan; ChangeFile [sampleFile]].

(** The invariant of sequential runs: at most one operation that will
    write [mode] is outstanding, and [mode] is the one it was started
    in: home for the camera request, camera for the blob, processing for
    the relay. *)
Definition oneOutstanding (s : AppState) : Prop :=
  match filter writesMode (pending s) with
  | [] => True
  | [TGetUserMedia] => mode s = Home
  | [TToBlob] => mode s = Camera
  | [TFetch _] => mode s = Processing
  | _ => False
  end.

Definition textUpload : Server.Part :=
  Server.mkPart (lit "image") (lit "notes.txt") (lit "text/plain") 12.

Definition hugeUpload : Server.Part :=
  Server.mkPart (lit "image") (lit "scan.png") (lit "image/png")
                (Server.fileSize + 1).

(** What the properties below look at in a state: [mode], [result],
    [error], [preview], the stream handle, the live tracks and the
    outstanding operations. *)
Definition Obs : Type :=
  (Mode * option jsstring * option jsstring * option jsstring
   * option MediaStream * list Track * list Task)%type.

Definition observe (s : AppState) : Obs :=
  (mode s, result s, error s, preview s, streamRef s, liveTracks s,
   pending s).

(** A state as a commit leaves it. *)
Definition committed (s : AppState) : Prop := render s = s.

Definition cameraDenied : jsstring :=
  lit "Camera access denied or unavailable".

(** What holds of the observed fields in every state of a sequential
    run: at most one operation that writes [mode] is outstanding and
    [mode] tells which (a relay call exactly in processing mode, a blob
    only with the stream released); the stream handle is held in
    camera mode only; every live track belongs to the held stream; a
    text exists in result mode only, where there is an outcome; and
    processing starts from no error. *)
Definition sequentialInv (o : Obs) : Prop :=
  let '(m, r, e, _, st, live, pend) := o in
  match filter writesMode pend with
  | [] => m <> Processing
  | [TGetUserMedia] => m = Home
  | [TToBlob] => m = Camera /\ st = None
  | [TFetch _] => m = Processing
  | _ => False
  end
  /\ (st <> None -> m = Camera)
  /\ (forall t, In t live -> In t (tracksOf st))
  /\ (m <> Result -> r = None)
  /\ (m = Processing -> e = None)
  /\ (m = Result -> r <> None \/ e <> None).

(** A file is picked and the relay answers with scenario 1's response. *)
Definition fileThenAnswer : list Event :=
  [ChangeFile [sampleFile]; Settle 1 (FetchSettled (inr responseHello))].

(** A file part [Server.single] lets through: in the field [image],
    with a MIME type starting with [image/], and not above the size
    limit. *)
Definition accepted (part : Server.Part) : Prop :=
  Server.fieldname part = lit "image"
  /\ startsWith (Server.mimetype part) (lit "image/") = true
  /\ (Server.size part <= Server.fileSize)%N.

(** The multipart body of [handleOCR]'s request: the one file, appended
    under [image]. *)
Definition uploadOf (file : File) : list Server.Part :=
  [Server.mkPart (lit "image") (fileName file) (fileType file)
                 (N.of_nat (List.length (fileBytes file)))].


(** The body of a successful answer. *)
Definition successBody (text now : jsstring) : Server.Body :=
  Server.JsonBody (JObject [(lit "success", JBool true);
                            (lit "text", JString (trim text));
                            (lit "timestamp", JString now)]).

Definition headNotSpace (s : jsstring) : Prop :=
  match s with
  | [] => True
  | c :: _ => isWhiteSpace c = false
  end.

(** A result view showing the text of scenario 1. *)
Definition helloResult : AppState :=
  mkApp Result (Some (lit "Hello world")) None None (Some []) None None None
        [] [].

(** The body of scenario 1's response. *)
Definition helloBody : JsValue :=
  match json responseHello with
  | inr body => body
  | inl _ => JNull
  end.

(** An upstream answer with one text block. *)
Definition upstreamHello : Server.Upstream :=
  inr [Some (lit " Hello world ")].


(** The events whose handlers call [setPreview]. *)
Definition writesPreview (e : Event) : bool :=
  match e with
  | ClickShutter _ | ClickCancel | ClickTryAgain | ClickScanAgain => true
  | Settle _ (ReaderLoaded _) => true
  | _ => false
  end.

(** The reader has loaded before the relay answers. *)
Definition fileThenPreview : list Event :=
  [ChangeFile [sampleFile];
   Settle 0 (ReaderLoaded (lit "data:image/jpeg;base64,/9j/"))].

(** Scan is pressed twice before the permission is answered; each
    request is then granted a stream of its own. *)
Definition doubleScan : list Event :=
  [ClickScan; ClickScan; Settle 0 (MediaSettled (inr twoTrackStream))].

Definition otherStream : MediaStream := mkStream [3%N] 640 480.

(** The viewfinder after Scan was granted. *)
Definition cameraReady : AppState :=
  match run scanGranted initial with
  | Some s => s
  | None => initial
  end.

(** * Properties *)

Ltac unfold_monad :=
  unfold setMode, setResult, setError, setPreview, spawn, tryCatch, evaluate,
    await, throw;
  unfold bind, get, modify, call, ret.

(** ** Releasing the camera *)

Lemma with_liveTracks_same (s : AppState) :
  with_liveTracks (liveTracks s) s = s.
Proof. destruct s; reflexivity. Qed.

Lemma forEach_trackStop (ts : list Track) :
  forall s,
    forEach ts trackStop s
    = mkRun (Normal tt) (with_liveTracks (stopAll ts (liveTracks s)) s)
            (map CTrackStop ts).
Proof.
  induction ts as [|t ts IH]; intros s.
  - simpl. unfold ret. now rewrite with_liveTracks_same.
  - simpl forEach. unfold bind at 1. simpl. rewrite IH. destruct s; reflexivity.
Qed.

Lemma stopCamera_run (s : AppState) :
  stopCamera s
  = mkRun (Normal tt)
          (with_stream None
             (with_liveTracks (stopAll (tracksOf (streamRef s)) (liveTracks s))
                s))
          (map CTrackStop (tracksOf (streamRef s))).
Proof.
  unfold stopCamera, bind, get. simpl.
  destruct (streamRef s) as [st|] eqn:E; simpl.
  - rewrite forEach_trackStop. simpl. now rewrite app_nil_r.
  - unfold ret. simpl. now rewrite with_liveTracks_same.
Qed.

Lemma stopAll_not_live (ts live : list Track) :
  (forall t, In t ts -> ~ In t live) -> stopAll ts live = live.
Proof.
  revert live. induction ts as [|t ts IH]; intros live H; simpl.
  - reflexivity.
  - assert (E : filter (fun t' => negb (N.eqb t' t)) live = live).
    { clear IH. induction live as [|x live IHl]; simpl.
      - reflexivity.
      - destruct (N.eqb_spec x t) as [->|_]; simpl.
        + exfalso. apply (H t); simpl; auto.
        + f_equal. apply IHl. intros t0 Ht0 Hin.
          apply (H t0 Ht0). now right. }
    rewrite E. apply IH. intros t0 Ht0. apply H. now right.
Qed.

Lemma stopAll_subset (ts live : list Track) (x : Track) :
  In x (stopAll ts live) -> In x live.
Proof.
  revert live. induction ts as [|t ts IH]; intros live; simpl.
  - auto.
  - intros H. apply IH in H. apply filter_In in H. tauto.
Qed.

Lemma stopAll_stopped (ts live : list Track) (t : Track) :
  In t ts -> ~ In t (stopAll ts live).
Proof.
  revert live. induction ts as [|t0 ts IH]; intros live Hin; simpl.
  - contradiction.
  - destruct Hin as [->|Hin].
    + intros H. apply stopAll_subset in H. apply filter_In in H.
      destruct H as [_ H]. now rewrite N.eqb_refl in H.
    + now apply IH.
Qed.

Lemma with_stream_same (s : AppState) :
  streamRef s = None -> with_stream None s = s.
Proof. destruct s; simpl; intros ->; reflexivity. Qed.

(** C8. [stopCamera] is safe on every state and idempotent: it completes
    normally and leaves the stream handle null; on a null handle it
    makes no call and changes nothing; on a handle whose tracks have all
    ended it changes nothing but the handle; a second call right after
    a first makes no call and changes nothing, so two calls amount to
    one. *)
Theorem stopCamera_idempotent (s : AppState) :
  completion (stopCamera s) = Normal tt
  /\ streamRef (final (stopCamera s)) = None
  /\ (streamRef s = None -> stopCamera s = mkRun (Normal tt) s [])
  /\ (forall st,
        streamRef s = Some st ->
        (forall t, In t (getTracks st) -> ~ In t (liveTracks s)) ->
        final (stopCamera s) = with_stream None s)
  /\ stopCamera (final (stopCamera s))
     = mkRun (Normal tt) (final (stopCamera s)) []
  /\ completion ((stopCamera ;; stopCamera) s) = Normal tt
  /\ final ((stopCamera ;; stopCamera) s) = final (stopCamera s).
Proof.
  assert (Hnull : forall s0, streamRef s0 = None ->
                             stopCamera s0 = mkRun (Normal tt) s0 []).
  { intros s0 E. rewrite stopCamera_run, E. simpl.
    now rewrite with_liveTracks_same, with_stream_same. }
  assert (Hafter : streamRef (final (stopCamera s)) = None).
  { rewrite stopCamera_run. reflexivity. }
  repeat split.
  - now rewrite stopCamera_run.
  - exact Hafter.
  - apply Hnull.
  - intros st E Hended. rewrite stopCamera_run, E. simpl.
    rewrite stopAll_not_live by exact Hended.
    now rewrite with_liveTracks_same.
  - now apply Hnull.
  - unfold bind. rewrite stopCamera_run.
    rewrite Hnull by reflexivity. reflexivity.
  - unfold bind. rewrite stopCamera_run.
    rewrite Hnull by reflexivity. simpl. reflexivity.
Qed.

Lemma stopCamera_idempotent_witness :
  final (stopCamera endedCameraState) = with_stream None endedCameraState
  /\ stopCamera initial = mkRun (Normal tt) initial [].
Proof.
  split.
  - apply (proj1 (proj2 (proj2 (proj2 (stopCamera_idempotent endedCameraState))))
             twoTrackStream).
    + reflexivity.
    + intros t _ H. exact H.
  - apply (proj1 (proj2 (proj2 (stopCamera_idempotent initial)))).
    reflexivity.
Defined.

(** ** Reset *)

Lemma handleReset_run (s : AppState) :
  handleReset s
  = mkRun (Normal tt)
          (mkApp Home None None None
                 match fileInputRef s with Some _ => Some [] | None => None end
                 (videoRef s) (canvasRef s) None
                 (stopAll (tracksOf (streamRef s)) (liveTracks s))
                 (pending s))
          (map CTrackStop (tracksOf (streamRef s))
           ++ [CSetMode Home; CSetResult None; CSetError None;
               CSetPreview None]).
Proof.
  unfold handleReset. unfold bind at 1. rewrite stopCamera_run.
  destruct s as [m r e p fi v c st live pend]; simpl.
  destruct fi; reflexivity.
Qed.

Lemma render_fields (s : AppState) :
  mode (render s) = mode s /\ result (render s) = result s
  /\ error (render s) = error s /\ preview (render s) = preview s
  /\ streamRef (render s) = streamRef s
  /\ liveTracks (render s) = liveTracks s /\ pending (render s) = pending s.
Proof. unfold render. destruct s as [[] r e p fi v c st live pend]; simpl; tauto. Qed.

(** C9. [handleReset] is idempotent: a second run right after a first
    completes normally, stops no track and leaves the state as the first
    run left it, with [mode] home and the result, error, preview, stream
    handle and file-input value cleared; the same holds with the commits
    that follow each run. *)
Theorem handleReset_idempotent (s : AppState) :
  let s1 := final (handleReset s) in
  let again := handleReset s1 in
  completion (handleReset s) = Normal tt
  /\ completion again = Normal tt
  /\ final again = s1
  /\ calls again
     = [CSetMode Home; CSetResult None; CSetError None; CSetPreview None]
  /\ mode s1 = Home /\ result s1 = None /\ error s1 = None
  /\ preview s1 = None /\ streamRef s1 = None
  /\ (fileInputRef s1 = None \/ fileInputRef s1 = Some [])
  /\ fileInputRef (render s1) = Some []
  /\ render (final (handleReset (render s1))) = render s1.
Proof.
  cbv zeta. rewrite !handleReset_run.
  destruct s as [m r e p fi v c st live pend]; simpl.
  repeat split.
  - destruct fi; reflexivity.
  - destruct fi; auto.
  - unfold render; simpl. destruct fi; reflexivity.
  - unfold render; simpl. destruct fi; reflexivity.
Qed.

(** ** Runs *)

Lemma run_invariant (P : AppState -> Prop) :
  (forall e s s', P s -> step e s = Some s' -> P s') ->
  forall events s0 s, P s0 -> run events s0 = Some s -> P s.
Proof.
  intros Hstep. induction events as [|e rest IH]; intros s0 s H0 H; simpl in H.
  - now injection H as <-.
  - destruct (step e s0) as [s1|] eqn:E; [|discriminate].
    exact (IH s1 s (Hstep e s0 s1 H0 E) H).
Qed.

(** ** Capture *)

Lemma capturePhoto_run (frame : jsstring) (v : Video) (c : Canvas)
      (s : AppState) :
  videoRef s = Some v ->
  canvasRef s = Some c ->
  capturePhoto frame s
  = mkRun (Normal tt)
          (mkApp (mode s) (result s) (error s) (Some frame) (fileInputRef s)
                 (videoRef s)
                 (Some (mkCanvas (videoWidth v) (videoHeight v))) None
                 (stopAll (tracksOf (streamRef s)) (liveTracks s))
                 (pending s ++ [TToBlob]))
          ([CDrawImage; CToDataURL jpeg; CSetPreview (Some frame)]
           ++ map CTrackStop (tracksOf (streamRef s))
           ++ [CToBlob jpeg (QArith_base.Qmake 9 10)]).
Proof.
  intros Hv Hc.
  destruct s as [m r e p fi v0 c0 st live pend]; simpl in Hv, Hc; subst.
  unfold capturePhoto, stopCamera, jpeg. unfold_monad.
  destruct st as [st|]; simpl.
  - rewrite forEach_trackStop. simpl. rewrite <- app_assoc. reflexivity.
  - reflexivity.
Qed.

Lemma handleOCR_run (file : File) (s : AppState) :
  handleOCR file s
  = mkRun (Normal tt)
          (mkApp Processing None None (preview s) (fileInputRef s)
                 (videoRef s) (canvasRef s) (streamRef s) (liveTracks s)
                 (pending s ++ [TFetch file]))
          [CSetMode Processing; CSetError None; CSetResult None;
           CFetch (lit "/api/ocr") (lit "POST") (lit "image") file].
Proof. destruct s; unfold handleOCR; unfold_monad; simpl; reflexivity. Qed.

Lemma viewfinderMounted_step (e : Event) (s s' : AppState) :
  step e s = Some s' -> viewfinderMounted s'.
Proof.
  unfold step. destruct (dispatch e s) as [h|]; [|discriminate].
  intros H. injection H as <-. unfold viewfinderMounted, render.
  destruct (mode (final (h s))) eqn:E; simpl; rewrite ?E;
    try discriminate.
  intros _. eauto.
Qed.

(** C4. Whenever the shutter can be pressed (a reachable state with
    [mode] camera), [capturePhoto] completes normally and makes its
    calls in this order: the frame is drawn and becomes the preview,
    [stop] is called on every track of the stream, and only then
    [toBlob] is asked for a JPEG of quality 0.9; when it returns the
    stream handle is null and none of the stream's tracks is live,
    whatever [toBlob] will answer.  If the blob is null the callback
    completes normally, makes no call and leaves the state, [mode]
    included, as it was; otherwise it starts the relay with the blob as
    [capture.jpg]. *)
Theorem capturePhoto_order (frame : jsstring) (events : list Event)
        (s : AppState) :
  run events initial = Some s ->
  mode s = Camera ->
  let r := capturePhoto frame s in
  completion r = Normal tt
  /\ calls r
     = [CDrawImage; CToDataURL jpeg; CSetPreview (Some frame)]
       ++ map CTrackStop (tracksOf (streamRef s))
       ++ [CToBlob jpeg (QArith_base.Qmake 9 10)]
  /\ preview (final r) = Some frame
  /\ streamRef (final r) = None
  /\ (forall t, In t (tracksOf (streamRef s)) -> ~ In t (liveTracks (final r)))
  /\ mode (final r) = Camera
  /\ pending (final r) = pending s ++ [TToBlob]
  /\ capturePhoto_blob None (final r) = mkRun (Normal tt) (final r) []
  /\ forall b,
       let r' := capturePhoto_blob (Some b) (final r) in
       completion r' = Normal tt
       /\ calls r'
          = [CSetMode Processing; CSetError None; CSetResult None;
             CFetch (lit "/api/ocr") (lit "POST") (lit "image")
                    (capturedFile b)]
       /\ mode (final r') = Processing
       /\ pending (final r') = pending s ++ [TToBlob; TFetch (capturedFile b)].
Proof.
  intros Hrun Hmode.
  assert (Hm : viewfinderMounted s).
  { apply (run_invariant viewfinderMounted
             (fun e s0 s1 _ => viewfinderMounted_step e s0 (s' := s1))
             events initial); [discriminate|exact Hrun]. }
  destruct (Hm Hmode) as (v & c & Hv & Hc).
  cbv zeta. rewrite (capturePhoto_run frame s Hv Hc).
  cbn [completion final calls preview streamRef liveTracks mode pending].
  repeat split;
    try (unfold capturePhoto_blob; rewrite handleOCR_run; reflexivity).
  - intros t Ht. now apply stopAll_stopped.
  - exact Hmode.
  - unfold capturePhoto_blob. rewrite handleOCR_run.
    cbn [final pending]. now rewrite <- app_assoc.
Qed.

Lemma capturePhoto_order_witness :
  exists s,
    run scanGranted initial = Some s
    /\ mode s = Camera
    /\ calls (capturePhoto (lit "data:image/jpeg;base64,") s)
       = [CDrawImage; CToDataURL jpeg;
          CSetPreview (Some (lit "data:image/jpeg;base64,"));
          CTrackStop 1%N; CTrackStop 2%N;
          CToBlob jpeg (QArith_base.Qmake 9 10)].
Proof.
  eexists. split; [vm_compute; reflexivity|]. split; [reflexivity|].
  refine (proj1 (proj2 (@capturePhoto_order (lit "data:image/jpeg;base64,")
                          scanGranted _ _ _)));
    [vm_compute; reflexivity | reflexivity].
Defined.

(** ** The relay *)

Lemma ok_iff (r : Response) :
  ok r = true <-> (200 <= status r <= 299)%Z.
Proof. unfold ok. rewrite andb_true_iff, !Z.leb_le. tauto. Qed.

Lemma ok_false_iff (r : Response) :
  ok r = false <-> (status r < 200 \/ 299 < status r)%Z.
Proof.
  unfold ok. rewrite andb_false_iff, !Z.leb_gt. tauto.
Qed.

Lemma settled_rejected (err : Thrown) (s : AppState) :
  handleOCR_settled (inl err) s = failed (catchMessage err) s.
Proof.
  unfold handleOCR_settled, failed, catchMessage. unfold_monad.
  destruct s, err; reflexivity.
Qed.

Lemma settled_not_ok (resp : Response) (s : AppState) :
  ok resp = false ->
  handleOCR_settled (inr resp) s
  = failed (lit "Server error: " ++ statusText resp) s.
Proof.
  intros H. unfold handleOCR_settled, failed. unfold_monad.
  rewrite H. destruct s; reflexivity.
Qed.

Lemma settled_json_rejected (resp : Response) (err : Thrown) (s : AppState) :
  ok resp = true ->
  json resp = inl err ->
  handleOCR_settled (inr resp) s = failed (catchMessage err) s.
Proof.
  intros H J. unfold handleOCR_settled, failed, catchMessage. unfold_monad.
  rewrite H, J. destruct s, err; reflexivity.
Qed.

Lemma settled_json_null (resp : Response) (s : AppState) :
  ok resp = true ->
  json resp = inr JNull ->
  handleOCR_settled (inr resp) s = failed (nullReadMessage (lit "text")) s.
Proof.
  intros H J. unfold handleOCR_settled, failed. unfold_monad.
  rewrite H, J. destruct s; reflexivity.
Qed.

Lemma settled_json (resp : Response) (body : JsValue) (s : AppState) :
  ok resp = true ->
  json resp = inr body ->
  body <> JNull ->
  handleOCR_settled (inr resp) s
  = succeeded match textField body with
              | Some t => trim t
              | None => []
              end s.
Proof.
  intros H J Hbody. unfold handleOCR_settled, succeeded, textField.
  unfold_monad. rewrite H, J.
  destruct s, body as [| b | n | str | items | fields]; try reflexivity.
  - contradiction.
  - cbn [negb getProperty].
    destruct (ownProperty fields (lit "text")) as [[]|]; reflexivity.
Qed.

Lemma step_fetch_settled (s : AppState) (i : nat) (file : File)
      (fetched : Thrown + Response) :
  nth_error (pending s) i = Some (TFetch file) ->
  step (Settle i (FetchSettled fetched)) s
  = Some (render
            (final (handleOCR_settled fetched
                      (with_pending (removeNth i (pending s)) s)))).
Proof.
  intros H. unfold step, dispatch. rewrite H. cbn [resume].
  unfold bind, modify.
  destruct (handleOCR_settled fetched _) as [[] s2 c2]; reflexivity.
Qed.

Lemma settled_cases (fetched : Thrown + Response) (s : AppState) :
  (exists text, handleOCR_settled fetched s = succeeded text s)
  \/ (exists message, handleOCR_settled fetched s = failed message s).
Proof.
  destruct fetched as [err | resp].
  - right. eexists. apply settled_rejected.
  - destruct (ok resp) eqn:H.
    + destruct (json resp) as [err | body] eqn:J.
      * right. exists (catchMessage err). now apply settled_json_rejected.
      * destruct body as [| b | n | str | items | fields];
          try (left; eexists; apply (settled_json resp s H J); discriminate).
        right. eexists. now apply settled_json_null.
    + right. eexists. now apply settled_not_ok.
Qed.

(** C2. However [fetch] settles (rejected, answered with any status,
    with a body that parses or not), the continuation of [handleOCR]
    completes normally and does exactly one of two things: it sets the
    result to a text, or it sets the error to a message; the two runs
    differ.  After a whole call of [handleOCR] exactly one of [result]
    and [error] is non-null. *)
Theorem handleOCR_one_outcome (file : File) (fetched : Thrown + Response)
        (s : AppState) :
  ((exists text, handleOCR_settled fetched s = succeeded text s)
   \/ (exists message, handleOCR_settled fetched s = failed message s))
  /\ (forall text message s', succeeded text s' <> failed message s')
  /\ completion (handleOCR_settled fetched s) = Normal tt
  /\ let r := (handleOCR file ;; handleOCR_settled fetched) s in
     completion r = Normal tt
     /\ ((exists text, result (final r) = Some text /\ error (final r) = None)
         \/ (exists message,
               error (final r) = Some message /\ result (final r) = None)).
Proof.
  split; [apply settled_cases|].
  split; [intros text message s' H; discriminate H|].
  split.
  - destruct (settled_cases fetched s) as [[t E] | [m E]]; now rewrite E.
  - cbv zeta. unfold bind. rewrite handleOCR_run.
    destruct (settled_cases fetched
                (mkApp Processing None None (preview s) (fileInputRef s)
                       (videoRef s) (canvasRef s) (streamRef s)
                       (liveTracks s) (pending s ++ [TFetch file])))
      as [[t E] | [m E]]; rewrite E; simpl; split; eauto.
Qed.

(** C5. A response whose status is outside 200-299 makes the
    continuation of [handleOCR] set the error to ["Server error: "]
    followed by the status text, whatever the status and the body are,
    and set [mode] to result; as an event, the settling of the
    outstanding [fetch] leads to a state with [mode] result and that
    error. *)
Theorem non_2xx_server_error (resp : Response) (s : AppState) :
  (status resp < 200 \/ 299 < status resp)%Z ->
  let message := lit "Server error: " ++ statusText resp in
  handleOCR_settled (inr resp) s = failed message s
  /\ forall i file,
       nth_error (pending s) i = Some (TFetch file) ->
       exists s',
         step (Settle i (FetchSettled (inr resp))) s = Some s'
         /\ mode s' = Result
         /\ error s' = Some message
         /\ result s' = result s.
Proof.
  intros H. apply ok_false_iff in H. cbv zeta. split.
  - now apply settled_not_ok.
  - intros i file Hi. eexists. split.
    + now apply step_fetch_settled with (file := file).
    + rewrite settled_not_ok by exact H.
      destruct (render_fields
                  (final (failed (lit "Server error: " ++ statusText resp)
                            (with_pending (removeNth i (pending s)) s))))
        as (-> & -> & -> & _).
      destruct s; simpl; auto.
Qed.

Lemma non_2xx_server_error_witness :
  handleOCR_settled (inr response500) initial
  = failed (lit "Server error: Internal Server Error") initial.
Proof.
  apply (proj1 (non_2xx_server_error response500 initial
                  (or_intror (eq_refl : (299 ?= 500)%Z = Lt)))).
Defined.

(** C6, as stated, fails: a 2xx response whose body is the JSON value
    [null] has no [text] field, yet reading [data.text] throws and the
    relay ends with an error message. *)
Lemma json_null_body_is_error :
  ~ (forall (resp : Response) (body : JsValue) (s : AppState),
        ok resp = true ->
        json resp = inr body ->
        handleOCR_settled (inr resp) s
        = succeeded match textField body with
                    | Some t => trim t
                    | None => []
                    end s).
Proof.
  intros H.
  specialize (H (mkResponse 200 (lit "OK") (inr JNull)) JNull initial
                eq_refl eq_refl).
  rewrite settled_json_null in H by reflexivity.
  discriminate H.
Qed.

(** C6, amended. For a 2xx response whose body parses to a JSON value
    other than [null], the continuation of [handleOCR] sets the result
    to the trimmed [text] field when the body is an object with a string
    there, and to the empty string otherwise; it sets [mode] to result
    and does not touch the error. *)
Theorem text_leniency (resp : Response) (body : JsValue) (s : AppState) :
  (200 <= status resp <= 299)%Z ->
  json resp = inr body ->
  body <> JNull ->
  let text := match textField body with Some t => trim t | None => [] end in
  let r := handleOCR_settled (inr resp) s in
  r = succeeded text s
  /\ completion r = Normal tt
  /\ calls r = [CSetResult (Some text); CSetMode Result]
  /\ result (final r) = Some text
  /\ error (final r) = error s
  /\ mode (final r) = Result.
Proof.
  intros H J Hbody. apply ok_iff in H. cbv zeta.
  rewrite (settled_json resp s H J Hbody).
  destruct s; simpl; auto 10.
Qed.

Lemma text_leniency_witness :
  result (final (handleOCR_settled (inr responseHello) initial))
  = Some (lit "Hello world")
  /\ result (final (handleOCR_settled (inr responseNoText) initial))
     = Some [].
Proof.
  split.
  - refine (proj1 (proj2 (proj2 (proj2
             (text_leniency responseHello initial _ eq_refl _))))).
    + split; discriminate.
    + discriminate.
  - refine (proj1 (proj2 (proj2 (proj2
             (text_leniency responseNoText initial _ eq_refl _))))).
    + split; discriminate.
    + discriminate.
Defined.

(** C10. A 2xx response whose body does not parse, so that
    [response.json()] rejects with an error carrying [message], makes
    the continuation of [handleOCR] complete normally, set the error to
    [message] and [mode] to result, and set no result; as an event, the
    settling of the outstanding [fetch] leads to a state with [mode]
    result and that error. *)
Theorem invalid_json_is_error (resp : Response) (message : jsstring)
        (s : AppState) :
  (200 <= status resp <= 299)%Z ->
  json resp = inl (ErrorObj message) ->
  let r := handleOCR_settled (inr resp) s in
  r = failed message s
  /\ completion r = Normal tt
  /\ calls r = [CSetError (Some message); CSetMode Result]
  /\ result (final r) = result s
  /\ forall i file,
       nth_error (pending s) i = Some (TFetch file) ->
       exists s',
         step (Settle i (FetchSettled (inr resp))) s = Some s'
         /\ mode s' = Result
         /\ error s' = Some message
         /\ result s' = result s.
Proof.
  intros H J. apply ok_iff in H. cbv zeta.
  rewrite (settled_json_rejected resp s H J). cbn [catchMessage].
  split; [reflexivity|]. split; [reflexivity|]. split; [reflexivity|].
  split.
  - destruct s; reflexivity.
  - intros i file Hi. eexists. split.
    + now apply step_fetch_settled with (file := file).
    + rewrite (settled_json_rejected resp _ H J). cbn [catchMessage].
      destruct (render_fields
                  (final (failed message
                            (with_pending (removeNth i (pending s)) s))))
        as (-> & -> & -> & _).
      destruct s; simpl; auto.
Qed.

Lemma invalid_json_is_error_witness :
  handleOCR_settled (inr responseBadJson) initial
  = failed (lit "Unexpected token < in JSON at position 0") initial.
Proof.
  refine (proj1 (invalid_json_is_error responseBadJson initial _ eq_refl)).
  split; discriminate.
Defined.

(** ** What an event does to [mode], the stream handle and the
    outstanding operations *)

Lemma step_user (e : Event) (s s' : AppState) :
  userEvent e = true ->
  step e s = Some s' ->
  offered e s = true
  /\ match e with
     | ChangeFile [] => sameControl s s' /\ pending s' = pending s
     | ChangeFile (file :: _) =>
         mode s' = Processing /\ streamRef s' = streamRef s
         /\ pending s' = pending s ++ [TReader file; TFetch file]
     | ClickScan =>
         sameControl s s' /\ pending s' = pending s ++ [TGetUserMedia]
     | ClickShutter _ =>
         mode s' = mode s
         /\ (pending s' = pending s \/ pending s' = pending s ++ [TToBlob])
     | ClickCancel | ClickTryAgain | ClickScanAgain =>
         mode s' = Home /\ streamRef s' = None /\ pending s' = pending s
     | ClickCopy | EditResult _ => sameControl s s' /\ pending s' = pending s
     | Settle _ _ => False
     end.
Proof.
  intros Hu H. unfold step in H.
  destruct (dispatch e s) as [h|] eqn:D; [|discriminate].
  injection H as <-.
  destruct (render_fields (final (h s))) as (Rm & _ & _ & _ & Rs & _ & Rp).
  unfold sameControl. rewrite Rm, Rs, Rp. clear Rm Rs Rp.
  assert (Ho : offered e s = true).
  { destruct e; try discriminate Hu; unfold dispatch in D;
      (destruct (offered _ s); [reflexivity | discriminate D]). }
  split; [exact Ho|].
  destruct e; try discriminate Hu; unfold dispatch in D; rewrite Ho in D;
    injection D as <-.
  - (* ChangeFile *)
    destruct files as [|file files].
    + destruct s; simpl; auto.
    + unfold handleFileSelect, handleOCR. unfold_monad.
      destruct s; simpl. rewrite <- app_assoc. auto.
  - (* ClickScan *) destruct s; simpl; auto.
  - (* ClickCancel *) rewrite handleReset_run; simpl; auto.
  - (* ClickShutter *)
    destruct (videoRef s) as [v|] eqn:Hv.
    + destruct (canvasRef s) as [c|] eqn:Hc.
      * rewrite (capturePhoto_run frame s Hv Hc). simpl. auto.
      * unfold capturePhoto. unfold_monad. rewrite Hv, Hc. simpl. auto.
    + unfold capturePhoto. unfold_monad. rewrite Hv. simpl.
      destruct (canvasRef s); simpl; auto.
  - (* ClickTryAgain *) rewrite handleReset_run; simpl; auto.
  - (* ClickScanAgain *) rewrite handleReset_run; simpl; auto.
  - (* ClickCopy *)
    unfold handleCopy. unfold_monad. destruct (truthy (result s)); simpl; auto.
  - (* EditResult *) destruct s; simpl; auto.
Qed.

Lemma step_settle (i : nat) (how : Settlement) (s s' : AppState) :
  step (Settle i how) s = Some s' ->
  exists t,
    nth_error (pending s) i = Some t
    /\ match t, how with
       | TGetUserMedia, MediaSettled (inr stream) =>
           mode s' = Camera /\ streamRef s' = Some stream
           /\ pending s' = removeNth i (pending s) ++ [TBindTimer stream]
       | TToBlob, BlobEncoded (Some b) =>
           mode s' = Processing /\ streamRef s' = streamRef s
           /\ pending s' = removeNth i (pending s) ++ [TFetch (capturedFile b)]
       | TFetch _, FetchSettled _ =>
           mode s' = Result /\ streamRef s' = streamRef s
           /\ pending s' = removeNth i (pending s)
       | TGetUserMedia, MediaSettled (inl _)
       | TBindTimer _, TimerFired
       | TToBlob, BlobEncoded None
       | TReader _, ReaderLoaded _ =>
           sameControl s s' /\ pending s' = removeNth i (pending s)
       | _, _ => False
       end.
Proof.
  intros H. unfold step, dispatch in H.
  destruct (nth_error (pending s) i) as [t|] eqn:N; [|discriminate].
  exists t. split; [reflexivity|].
  destruct (resume t how) as [k|] eqn:R; [|destruct t, how; discriminate].
  injection H as <-.
  match goal with
  | |- context [render ?x] =>
      destruct (render_fields x) as (Rm & _ & _ & _ & Rs & _ & Rp)
  end.
  unfold sameControl. rewrite Rm, Rs, Rp. clear Rm Rs Rp.
  destruct t, how; try discriminate R; simpl in R; injection R as <-.
  - (* getUserMedia *)
    destruct granted as [err | stream];
      unfold startCamera_settled; unfold_monad; destruct s; simpl; auto.
  - (* timer *)
    unfold startCamera_timeout. unfold_monad.
    destruct s as [m r e p fi [v|] c st live pend]; simpl; auto.
  - (* toBlob *)
    destruct blob as [b|]; unfold capturePhoto_blob.
    + unfold bind, modify. rewrite handleOCR_run. simpl. auto.
    + unfold_monad. simpl. auto.
  - (* FileReader *)
    unfold reader_onload. unfold_monad. destruct s; simpl; auto.
  - (* fetch *)
    unfold bind, modify.
    match goal with
    | |- context [handleOCR_settled fetched ?x] =>
        destruct (settled_cases fetched x) as [[text E] | [msg E]]; rewrite E
    end; destruct s; simpl; auto.
Qed.

(** ** The stream handle in home mode *)

Lemma offered_mode (e : Event) (s : AppState) :
  offered e s = true ->
  match e with
  | ChangeFile _ | ClickScan => mode s = Home
  | ClickCancel | ClickShutter _ => mode s = Camera
  | ClickTryAgain | ClickScanAgain | ClickCopy | EditResult _ =>
      mode s = Result
  | Settle _ _ => False
  end.
Proof.
  unfold offered. destruct e, (mode s); intros H;
    try discriminate H; reflexivity.
Qed.

Lemma homeHasNoStream_step (e : Event) (s s' : AppState) :
  homeHasNoStream s -> step e s = Some s' -> homeHasNoStream s'.
Proof.
  unfold homeHasNoStream. intros Inv H Hhome.
  destruct (userEvent e) eqn:U.
  - destruct (step_user e s U H) as [Ho He].
    apply offered_mode in Ho. unfold sameControl in He.
    destruct e as [[|file files]| | | | | | | |]; try discriminate U;
      try (destruct He as ((Hm & Hs) & _); rewrite Hs; apply Inv; congruence);
      try (destruct He as (_ & Hs & _); exact Hs);
      destruct He as (Hm & _); congruence.
  - destruct e; try discriminate U.
    destruct (step_settle i how s H) as (t & _ & He).
    unfold sameControl in He.
    destruct t, how as [[err | granted] | | [b|] | | ]; try contradiction;
      try (destruct He as ((Hm & Hs) & _); rewrite Hs; apply Inv; congruence);
      destruct He as (Hm & _); congruence.
Qed.

(** C3. [handleReset] (cancel, try again, scan again) stops the camera
    before it sets [mode] to home and leaves the stream handle null; and
    in every state the component can reach, when [mode] is home the
    stream handle is null. *)
Theorem stream_null_at_home :
  (forall s,
      let r := handleReset s in
      streamRef (final r) = None
      /\ mode (final r) = Home
      /\ calls r
         = calls (stopCamera s)
           ++ [CSetMode Home; CSetResult None; CSetError None;
               CSetPreview None])
  /\ (forall events s,
        run events initial = Some s -> mode s = Home -> streamRef s = None).
Proof.
  split.
  - intros s. cbv zeta. rewrite handleReset_run, stopCamera_run. auto.
  - intros events s H.
    apply (run_invariant homeHasNoStream homeHasNoStream_step events initial).
    + intros _. reflexivity.
    + exact H.
Qed.

Lemma stream_null_at_home_witness :
  exists s,
    run scanThenCancel initial = Some s
    /\ mode s = Home /\ streamRef s = None.
Proof.
  eexists. split; [vm_compute; reflexivity|]. split; [reflexivity|].
  apply (proj2 stream_null_at_home scanThenCancel); vm_compute; reflexivity.
Defined.

(** ** Transitions of [mode] *)

(** C1, as stated, fails: the user presses Scan and, while the camera
    permission is still outstanding, picks a file, so [mode] is
    processing; the permission is then granted and the continuation of
    [startCamera] sets [mode] to camera. *)
Lemma mode_edges_fail :
  ~ (forall events s e s',
        run events initial = Some s ->
        step e s = Some s' ->
        mode s' = mode s \/ edge (mode s) (mode s') = true).
Proof.
  intros H.
  destruct (run racingEvents initial) as [s|] eqn:R;
    [|vm_compute in R; discriminate R].
  destruct (step (Settle 0 (MediaSettled (inr twoTrackStream))) s)
    as [s'|] eqn:S.
  - specialize (H racingEvents s _ s' R S).
    vm_compute in R. injection R as <-.
    vm_compute in S. injection S as <-.
    simpl in H. destruct H; discriminate.
  - vm_compute in R. injection R as <-. vm_compute in S. discriminate S.
Qed.

(** Removing one element of a list, seen through a filter. *)
Section FilterRemoveNth.

Context {A : Type} (f : A -> bool).

Lemma filter_removeNth_other (l : list A) (i : nat) (t : A) :
  nth_error l i = Some t -> f t = false ->
  filter f (removeNth i l) = filter f l.
Proof.
  revert i. induction l as [|x l IH]; intros [|i] H Hf; simpl in *;
    try discriminate.
  - injection H as ->. now rewrite Hf.
  - rewrite (IH i H Hf). reflexivity.
Qed.

Lemma filter_keeps_nth (l : list A) (i : nat) (t : A) :
  nth_error l i = Some t -> f t = true -> In t (filter f l).
Proof.
  intros H Hf. apply filter_In. split; [|exact Hf].
  eapply nth_error_In, H.
Qed.

Lemma filter_removeNth_only (l : list A) (i : nat) (t t' : A) :
  nth_error l i = Some t -> f t = true -> filter f l = [t'] ->
  t' = t /\ filter f (removeNth i l) = [].
Proof.
  revert i. induction l as [|x l IH]; intros [|i] H Hf Hl; simpl in *;
    try discriminate.
  - injection H as ->. rewrite Hf in Hl. injection Hl as -> Hl. auto.
  - destruct (f x) eqn:Fx.
    + injection Hl as -> Hl. exfalso.
      assert (Hin := filter_keeps_nth l i H Hf).
      rewrite Hl in Hin. contradiction.
    + now apply IH.
Qed.

Lemma filter_nil_nth (l : list A) (i : nat) (t : A) :
  nth_error l i = Some t -> f t = true -> filter f l <> [].
Proof.
  intros H Hf E. assert (Hin := filter_keeps_nth l i H Hf).
  rewrite E in Hin. contradiction.
Qed.

Lemma existsb_false_filter (l : list A) :
  existsb f l = false -> filter f l = [].
Proof.
  induction l as [|x l IH]; simpl; [reflexivity|].
  destruct (f x); simpl; [discriminate|exact IH].
Qed.

End FilterRemoveNth.

Lemma oneOutstanding_settle (s : AppState) (i : nat) (t : Task) :
  oneOutstanding s ->
  nth_error (pending s) i = Some t ->
  writesMode t = true ->
  filter writesMode (removeNth i (pending s)) = []
  /\ match t with
     | TGetUserMedia => mode s = Home
     | TToBlob => mode s = Camera
     | TFetch _ => mode s = Processing
     | _ => True
     end.
Proof.
  unfold oneOutstanding. intros Inv N W.
  destruct (filter writesMode (pending s)) as [|t' [|t'' rest]] eqn:F.
  - exfalso. exact (filter_nil_nth writesMode _ _ N W F).
  - destruct (filter_removeNth_only writesMode _ _ N W F) as [-> E].
    split; [exact E|]. destruct t; try exact I; exact Inv.
  - destruct t'; contradiction.
Qed.

Lemma stepSequential_spec (e : Event) (s s' : AppState) :
  oneOutstanding s ->
  stepSequential e s = Some s' ->
  oneOutstanding s'
  /\ (mode s' = mode s \/ edge (mode s) (mode s') = true).
Proof.
  intros Inv H. unfold stepSequential in H.
  destruct (userEvent e) eqn:U; simpl in H.
  - destruct (existsb writesMode (pending s)) eqn:X; [discriminate|].
    apply existsb_false_filter in X.
    destruct (step_user e s U H) as [Ho He].
    apply offered_mode in Ho. unfold sameControl in He.
    unfold oneOutstanding.
    destruct e as [[|file files]| | | | | | | |]; try discriminate U.
    + destruct He as ((Hm & _) & Hp). rewrite Hp, X, Hm. auto.
    + destruct He as (Hm & _ & Hp).
      rewrite Hp, filter_app, X, Hm, Ho. simpl. auto.
    + destruct He as ((Hm & _) & Hp).
      rewrite Hp, filter_app, X, Hm. simpl. auto.
    + destruct He as (Hm & _ & Hp). rewrite Hp, X, Hm, Ho. simpl. auto.
    + destruct He as (Hm & [Hp | Hp]); rewrite Hp, ?filter_app, X, Hm;
        simpl; auto.
    + destruct He as (Hm & _ & Hp). rewrite Hp, X, Hm, Ho. simpl. auto.
    + destruct He as (Hm & _ & Hp). rewrite Hp, X, Hm, Ho. simpl. auto.
    + destruct He as ((Hm & _) & Hp). rewrite Hp, X, Hm. auto.
    + destruct He as ((Hm & _) & Hp). rewrite Hp, X, Hm. auto.
  - destruct e; try discriminate U.
    destruct (step_settle i how s H) as (t & N & He).
    unfold sameControl in He.
    destruct (writesMode t) eqn:W.
    + destruct (oneOutstanding_settle s i Inv N W) as [F Hmode].
      unfold oneOutstanding.
      destruct t, how as [[err | granted] | | [b|] | | ];
        try contradiction; try discriminate W.
      * destruct He as ((Hm & _) & Hp). rewrite Hp, F, Hm. auto.
      * destruct He as (Hm & _ & Hp).
        rewrite Hp, filter_app, F, Hm, Hmode. simpl. auto.
      * destruct He as (Hm & _ & Hp).
        rewrite Hp, filter_app, F, Hm, Hmode. simpl. auto.
      * destruct He as ((Hm & _) & Hp). rewrite Hp, F, Hm. auto.
      * destruct He as (Hm & _ & Hp). rewrite Hp, F, Hm, Hmode. simpl. auto.
    + assert (F := filter_removeNth_other writesMode _ _ N W).
      unfold oneOutstanding in *.
      destruct t, how as [[err | granted] | | [b|] | | ];
        try contradiction; try discriminate W;
        destruct He as ((Hm & _) & Hp); rewrite Hp, F, Hm; auto.
Qed.

Lemma runSequential_invariant (events : list Event) :
  forall s0 s,
    oneOutstanding s0 -> runSequential events s0 = Some s -> oneOutstanding s.
Proof.
  induction events as [|e rest IH]; intros s0 s H0 H; simpl in H.
  - now injection H as <-.
  - destruct (stepSequential e s0) as [s1|] eqn:E; [|discriminate].
    exact (IH s1 s (proj1 (stepSequential_spec e s0 H0 E)) H).
Qed.

(** C1, amended. In every run in which the user operates a control
    only when no camera request, blob encoding or relay call is
    outstanding, every change of [mode] is one of home to camera, home
    to processing, camera to processing, camera to home, processing to
    result, result to home. *)
Theorem mode_edges_sequential (events : list Event) (s : AppState)
        (e : Event) (s' : AppState) :
  runSequential events initial = Some s ->
  stepSequential e s = Some s' ->
  mode s' = mode s \/ edge (mode s) (mode s') = true.
Proof.
  intros R S.
  apply (stepSequential_spec e s); [|exact S].
  apply (runSequential_invariant events initial); [exact I|exact R].
Qed.

(** Scenario 1: a file is picked and the relay answers. *)
Lemma mode_edges_sequential_witness :
  exists s s',
    runSequential [ChangeFile [sampleFile]] initial = Some s
    /\ stepSequential (Settle 1 (FetchSettled (inr responseHello))) s = Some s'
    /\ mode s = Processing /\ mode s' = Result
    /\ (mode s' = mode s \/ edge (mode s) (mode s') = true).
Proof.
  eexists. eexists.
  split; [vm_compute; reflexivity|].
  split; [vm_compute; reflexivity|].
  split; [reflexivity|]. split; [reflexivity|].
  apply (mode_edges_sequential [ChangeFile [sampleFile]]
           (Settle 1 (FetchSettled (inr responseHello))));
    vm_compute; reflexivity.
Defined.

(** ** Rejected uploads *)

Lemma rejected_mime_status (part : Server.Part) (rest : list Server.Part)
      (upstream : Server.Upstream) (now : jsstring) :
  Server.fieldname part = lit "image" ->
  startsWith (Server.mimetype part) (lit "image/") = false ->
  Server.statusCode (Server.postOcr (part :: rest) upstream now) = 500%Z.
Proof.
  intros Hf Hm. unfold Server.postOcr, Server.single. simpl.
  rewrite Hf. change (Js.eqb (lit "image") (lit "image")) with true.
  unfold Server.fileFilter. rewrite Hm. reflexivity.
Qed.

Lemma rejected_size_status (part : Server.Part) (rest : list Server.Part)
      (upstream : Server.Upstream) (now : jsstring) :
  Server.fieldname part = lit "image" ->
  startsWith (Server.mimetype part) (lit "image/") = true ->
  (Server.fileSize < Server.size part)%N ->
  Server.statusCode (Server.postOcr (part :: rest) upstream now) = 500%Z.
Proof.
  intros Hf Hm Hs. unfold Server.postOcr, Server.single. simpl.
  rewrite Hf. change (Js.eqb (lit "image") (lit "image")) with true.
  unfold Server.fileFilter. rewrite Hm.
  apply N.ltb_lt in Hs. rewrite Hs. reflexivity.
Qed.

(** C7 fails on the code. An upload of a [text/plain] file and an upload
    of an image one byte over 50 MiB are both answered with status 500,
    not with a 4xx status: the error multer passes on reaches Express's
    default handler, while the handler of the route answers a missing
    file with 400. *)
Theorem upload_rejection_status (upstream : Server.Upstream) (now : jsstring) :
  Server.statusCode (Server.postOcr [textUpload] upstream now) = 500%Z
  /\ Server.statusCode (Server.postOcr [hugeUpload] upstream now) = 500%Z
  /\ Server.statusCode (Server.postOcr [] upstream now) = 400%Z.
Proof.
  split; [|split].
  - now apply rejected_mime_status.
  - apply rejected_size_status; [reflexivity|reflexivity|].
    reflexivity.
  - reflexivity.
Qed.

(** ** What every event does to the observed fields *)

Lemma observe_render (s : AppState) : observe (render s) = observe s.
Proof.
  unfold observe.
  destruct (render_fields s) as (-> & -> & -> & -> & -> & -> & ->).
  reflexivity.
Qed.

Lemma user_effect (e : Event) (s s' : AppState) :
  userEvent e = true ->
  step e s = Some s' ->
  match e with
  | ChangeFile [] | ClickCopy => observe s' = observe s
  | ChangeFile (file :: _) =>
      observe s'
      = (Processing, None, None, preview s, streamRef s, liveTracks s,
         pending s ++ [TReader file; TFetch file])
  | ClickScan =>
      observe s'
      = (mode s, result s, None, preview s, streamRef s, liveTracks s,
         pending s ++ [TGetUserMedia])
  | ClickShutter frame =>
      ((videoRef s = None \/ canvasRef s = None) /\ observe s' = observe s)
      \/ observe s'
         = (mode s, result s, error s, Some frame, None,
            stopAll (tracksOf (streamRef s)) (liveTracks s),
            pending s ++ [TToBlob])
  | ClickCancel | ClickTryAgain | ClickScanAgain =>
      observe s'
      = (Home, None, None, None, None,
         stopAll (tracksOf (streamRef s)) (liveTracks s), pending s)
  | EditResult value =>
      observe s'
      = (mode s, Some value, error s, preview s, streamRef s, liveTracks s,
         pending s)
  | Settle _ _ => False
  end.
Proof.
  intros Hu H. destruct (step_user e s Hu H) as [Ho _].
  unfold step in H.
  destruct (dispatch e s) as [h|] eqn:D; [|discriminate].
  injection H as <-. rewrite observe_render.
  destruct e; try discriminate Hu; unfold dispatch in D; rewrite Ho in D;
    injection D as <-.
  - (* ChangeFile *)
    destruct files as [|file files].
    + destruct s; reflexivity.
    + unfold handleFileSelect, handleOCR. unfold_monad.
      destruct s; unfold observe; simpl. now rewrite <- app_assoc.
  - (* ClickScan *) destruct s; reflexivity.
  - (* ClickCancel *) rewrite handleReset_run. reflexivity.
  - (* ClickShutter *)
    destruct (videoRef s) as [v|] eqn:Hv.
    + destruct (canvasRef s) as [c|] eqn:Hc.
      * right. rewrite (capturePhoto_run frame s Hv Hc). reflexivity.
      * left. split; [now right|].
        unfold capturePhoto. unfold_monad. rewrite Hv, Hc. reflexivity.
    + left. split; [now left|].
      unfold capturePhoto. unfold_monad. rewrite Hv.
      destruct (canvasRef s); reflexivity.
  - (* ClickTryAgain *) rewrite handleReset_run. reflexivity.
  - (* ClickScanAgain *) rewrite handleReset_run. reflexivity.
  - (* ClickCopy *)
    unfold handleCopy. unfold_monad. destruct (truthy (result s)); reflexivity.
  - (* EditResult *) destruct s; reflexivity.
Qed.

Lemma settle_effect (i : nat) (how : Settlement) (s s' : AppState) :
  step (Settle i how) s = Some s' ->
  exists t,
    nth_error (pending s) i = Some t
    /\ match t, how with
       | TGetUserMedia, MediaSettled (inr stream) =>
           observe s'
           = (Camera, result s, error s, preview s, Some stream,
              liveTracks s ++ getTracks stream,
              removeNth i (pending s) ++ [TBindTimer stream])
       | TGetUserMedia, MediaSettled (inl _) =>
           observe s'
           = (mode s, result s, Some cameraDenied, preview s, streamRef s,
              liveTracks s, removeNth i (pending s))
       | TBindTimer _, TimerFired | TToBlob, BlobEncoded None =>
           observe s'
           = (mode s, result s, error s, preview s, streamRef s,
              liveTracks s, removeNth i (pending s))
       | TToBlob, BlobEncoded (Some b) =>
           observe s'
           = (Processing, None, None, preview s, streamRef s, liveTracks s,
              removeNth i (pending s) ++ [TFetch (capturedFile b)])
       | TReader _, ReaderLoaded dataURL =>
           observe s'
           = (mode s, result s, error s, Some dataURL, streamRef s,
              liveTracks s, removeNth i (pending s))
       | TFetch _, FetchSettled _ =>
           (exists text,
               observe s'
               = (Result, Some text, error s, preview s, streamRef s,
                  liveTracks s, removeNth i (pending s)))
           \/ (exists message,
                  observe s'
                  = (Result, result s, Some message, preview s, streamRef s,
                     liveTracks s, removeNth i (pending s)))
       | _, _ => False
       end.
Proof.
  intros H. unfold step, dispatch in H.
  destruct (nth_error (pending s) i) as [t|] eqn:N; [|discriminate].
  exists t. split; [reflexivity|].
  destruct (resume t how) as [k|] eqn:R; [|destruct t, how; discriminate].
  injection H as <-. rewrite observe_render.
  destruct t, how; try discriminate R; simpl in R; injection R as <-.
  - (* getUserMedia *)
    destruct granted as [err | stream];
      unfold startCamera_settled; unfold_monad; destruct s; reflexivity.
  - (* timer *)
    unfold startCamera_timeout. unfold_monad.
    destruct s as [m r e p fi [v|] c st live pend]; reflexivity.
  - (* toBlob *)
    destruct blob as [b|]; unfold capturePhoto_blob.
    + unfold bind, modify. rewrite handleOCR_run. reflexivity.
    + unfold_monad. reflexivity.
  - (* FileReader *)
    unfold reader_onload. unfold_monad. destruct s; reflexivity.
  - (* fetch *)
    unfold bind, modify.
    match goal with
    | |- context [handleOCR_settled fetched ?x] =>
        destruct (settled_cases fetched x) as [[text E] | [msg E]]; rewrite E
    end; [left; exists text | right; exists msg]; destruct s; reflexivity.
Qed.

(** ** Sequential runs *)

Lemma stopAll_covered (ts live : list Track) (x : Track) :
  (forall t, In t live -> In t ts) -> ~ In x (stopAll ts live).
Proof.
  intros H Hx. apply (stopAll_stopped ts live x); [|exact Hx].
  apply H. eapply stopAll_subset, Hx.
Qed.

Lemma outstanding_settle (m : Mode) (st : option MediaStream)
      (pend : list Task) (i : nat) (t : Task) :
  nth_error pend i = Some t ->
  writesMode t = true ->
  match filter writesMode pend with
  | [] => m <> Processing
  | [TGetUserMedia] => m = Home
  | [TToBlob] => m = Camera /\ st = None
  | [TFetch _] => m = Processing
  | _ => False
  end ->
  filter writesMode (removeNth i pend) = []
  /\ match t with
     | TGetUserMedia => m = Home
     | TToBlob => m = Camera /\ st = None
     | TFetch _ => m = Processing
     | _ => True
     end.
Proof.
  intros N W Inv.
  destruct (filter writesMode pend) as [|t' [|t'' rest]] eqn:F.
  - exfalso. exact (filter_nil_nth writesMode _ _ N W F).
  - destruct (filter_removeNth_only writesMode _ _ N W F) as [-> E].
    split; [exact E|]. destruct t; try exact I; exact Inv.
  - destruct t'; contradiction.
Qed.

Lemma home_no_stream (m : Mode) (st : option MediaStream) :
  (st <> None -> m = Camera) -> m <> Camera -> st = None.
Proof.
  intros H Hm. destruct st as [x|]; [|reflexivity].
  exfalso. apply Hm, H. discriminate.
Qed.

Lemma sequentialInv_step (e : Event) (s s' : AppState) :
  sequentialInv (observe s) ->
  stepSequential e s = Some s' ->
  sequentialInv (observe s').
Proof.
  intros Inv H. unfold stepSequential in H.
  destruct (userEvent e) eqn:U; simpl in H.
  - destruct (existsb writesMode (pending s)) eqn:X; [discriminate|].
    apply existsb_false_filter in X.
    destruct (step_user e s U H) as [Ho _]. apply offered_mode in Ho.
    assert (He := user_effect e s U H).
    unfold observe, sequentialInv in Inv. rewrite X in Inv.
    destruct Inv as (Hout & Hst & Hlive & Hres & Herr & Hrm).
    destruct e as [[|file files]| | | | | | | |]; try discriminate U.
    + rewrite He. unfold observe, sequentialInv. rewrite X. auto 10.
    + rewrite He. unfold sequentialInv. rewrite filter_app, X. simpl.
      repeat split; auto; try discriminate.
      intros Hs. exfalso. apply Hst in Hs. congruence.
    + rewrite He. unfold sequentialInv. rewrite filter_app, X. simpl.
      repeat split; auto; congruence.
    + rewrite He. unfold sequentialInv. rewrite X. simpl.
      repeat split; auto; try discriminate; try contradiction.
      intros t Ht. exfalso. revert Ht. now apply stopAll_covered.
    + destruct He as [[_ He] | He]; rewrite He.
      * unfold observe, sequentialInv. rewrite X. auto 10.
      * unfold sequentialInv. rewrite filter_app, X. simpl.
        repeat split; auto; try congruence.
        intros t Ht. exfalso. revert Ht. now apply stopAll_covered.
    + rewrite He. unfold sequentialInv. rewrite X. simpl.
      repeat split; auto; try discriminate; try contradiction.
      intros t Ht. exfalso. revert Ht. now apply stopAll_covered.
    + rewrite He. unfold sequentialInv. rewrite X. simpl.
      repeat split; auto; try discriminate; try contradiction.
      intros t Ht. exfalso. revert Ht. now apply stopAll_covered.
    + rewrite He. unfold observe, sequentialInv. rewrite X. auto 10.
    + rewrite He. unfold sequentialInv. rewrite X. simpl.
      repeat split; auto; try congruence.
      intros _. left. discriminate.
  - destruct e; try discriminate U.
    destruct (settle_effect i how s H) as (t & N & He).
    unfold observe, sequentialInv in Inv.
    destruct Inv as (Hout & Hst & Hlive & Hres & Herr & Hrm).
    destruct (writesMode t) eqn:W.
    + destruct (outstanding_settle (mode s) (streamRef s) _ _ N W Hout)
        as [F Hmode].
      destruct t, how as [[err | granted] | | [b|] | | ];
        try contradiction; try discriminate W.
      * (* camera denied *)
        rewrite He. unfold sequentialInv. rewrite F.
        repeat split; auto; congruence.
      * (* camera granted *)
        rewrite He. unfold sequentialInv. rewrite filter_app, F. simpl.
        assert (Hnone : streamRef s = None)
          by (apply (home_no_stream Hst); congruence).
        repeat split; auto; try discriminate.
        -- intros t Ht. apply in_app_or in Ht. destruct Ht as [Ht|Ht];
             [|exact Ht].
           apply Hlive in Ht. rewrite Hnone in Ht. contradiction.
        -- intros _. apply Hres. congruence.
      * (* blob, some *)
        destruct Hmode as [Hm Hs].
        rewrite He. unfold sequentialInv. rewrite filter_app, F. simpl.
        repeat split; auto; try discriminate.
        intros Hs'. congruence.
      * (* blob, none *)
        destruct Hmode as [Hm Hs].
        rewrite He. unfold sequentialInv. rewrite F.
        repeat split; auto; congruence.
      * (* fetch *)
        assert (Hnone : streamRef s = None)
          by (apply (home_no_stream Hst); congruence).
        destruct He as [[text He] | [msg He]]; rewrite He;
          unfold sequentialInv; rewrite F;
          (repeat split; auto; try discriminate; try contradiction;
           try congruence).
        -- intros _. left. discriminate.
        -- intros _. right. discriminate.
    + assert (F := filter_removeNth_other writesMode _ _ N W).
      destruct t, how as [[err | granted] | | [b|] | | ];
        try contradiction; try discriminate W;
        rewrite He; unfold sequentialInv; rewrite F; auto 10.
Qed.

Lemma sequentialInv_run (events : list Event) :
  forall s0 s,
    sequentialInv (observe s0) -> runSequential events s0 = Some s ->
    sequentialInv (observe s).
Proof.
  induction events as [|e rest IH]; intros s0 s H0 H; simpl in H.
  - now injection H as <-.
  - destruct (stepSequential e s0) as [s1|] eqn:E; [|discriminate].
    exact (IH s1 s (@sequentialInv_step e s0 s1 H0 E) H).
Qed.

Lemma sequentialInv_initial : sequentialInv (observe initial).
Proof.
  simpl. repeat split; auto; try discriminate; try contradiction.
Qed.

(** X5. In a sequential run the stream handle is held in camera mode
    only, every track that is still live is a track of the stream the
    handle holds, and so no track is live while the handle is null. *)
Theorem sequential_no_leak (events : list Event) (s : AppState) :
  runSequential events initial = Some s ->
  (streamRef s <> None -> mode s = Camera)
  /\ (forall t, In t (liveTracks s) -> In t (tracksOf (streamRef s)))
  /\ (streamRef s = None -> liveTracks s = []).
Proof.
  intros H.
  destruct (@sequentialInv_run events initial s sequentialInv_initial H)
    as (_ & Hst & Hlive & _).
  split; [exact Hst|]. split; [exact Hlive|].
  intros E. rewrite E in Hlive.
  destruct (liveTracks s) as [|t l]; [reflexivity|].
  exfalso. apply (Hlive t). now left.
Qed.

Lemma sequential_no_leak_witness :
  exists s,
    runSequential scanThenCancel initial = Some s
    /\ streamRef s = None /\ liveTracks s = [].
Proof.
  eexists. split; [vm_compute; reflexivity|]. split; [reflexivity|].
  refine (proj2 (proj2 (@sequential_no_leak scanThenCancel _ _)) _);
    vm_compute; reflexivity.
Defined.

(** X6. In a sequential run at most one of camera request, blob
    encoding and relay call is outstanding; [mode] is processing
    exactly when a relay call is, and then no control is offered, so
    that no second request can be started before the first settles. *)
Theorem sequential_one_relay (events : list Event) (s : AppState) :
  runSequential events initial = Some s ->
  (List.length (filter writesMode (pending s)) <= 1)%nat
  /\ (mode s = Processing
      <-> exists file, filter writesMode (pending s) = [TFetch file])
  /\ (mode s = Processing ->
      forall e, userEvent e = true -> step e s = None).
Proof.
  intros H.
  destruct (@sequentialInv_run events initial s sequentialInv_initial H)
    as (Hout & _).
  split; [|split].
  - destruct (filter writesMode (pending s)) as [|t [|t' l]];
      simpl; auto.
    destruct t; contradiction.
  - destruct (filter writesMode (pending s)) as [|t [|t' l]].
    + split; [contradiction|]. intros [file E]. discriminate E.
    + destruct t; try contradiction.
      * split; [congruence|]. intros [file E]. discriminate E.
      * split; [destruct Hout; congruence|]. intros [file E]. discriminate E.
      * split; [eauto|auto].
    + destruct t; contradiction.
  - intros Hm e U. unfold step, dispatch.
    destruct e; try discriminate U; unfold offered; rewrite Hm; reflexivity.
Qed.

Lemma sequential_one_relay_witness :
  exists s,
    runSequential [ChangeFile [sampleFile]] initial = Some s
    /\ mode s = Processing
    /\ step ClickScan s = None.
Proof.
  eexists. split; [vm_compute; reflexivity|]. split; [reflexivity|].
  refine (proj2 (proj2 (@sequential_one_relay [ChangeFile [sampleFile]] _ _))
            _ ClickScan _);
    vm_compute; reflexivity.
Defined.

(** X9. In a sequential run a transcribed text exists in result mode
    only; processing mode has neither text nor error; and in result
    mode there is a text or an error. *)
Theorem sequential_outcome (events : list Event) (s : AppState) :
  runSequential events initial = Some s ->
  (mode s <> Result -> result s = None)
  /\ (mode s = Processing -> result s = None /\ error s = None)
  /\ (mode s = Result -> result s <> None \/ error s <> None).
Proof.
  intros H.
  destruct (@sequentialInv_run events initial s sequentialInv_initial H)
    as (_ & _ & _ & Hres & Herr & Hrm).
  split; [exact Hres|]. split; [|exact Hrm].
  intros Hm. split; [apply Hres; congruence|now apply Herr].
Qed.

Lemma sequential_outcome_witness :
  exists s,
    runSequential fileThenAnswer initial = Some s
    /\ mode s = Result
    /\ (result s <> None \/ error s <> None).
Proof.
  eexists. split; [vm_compute; reflexivity|]. split; [reflexivity|].
  refine (proj2 (proj2 (@sequential_outcome fileThenAnswer _ _)) _);
    vm_compute; reflexivity.
Defined.

(** ** Camera access *)

Lemma settle_defined (s : AppState) (i : nat) (t : Task) (how : Settlement)
      (k : M unit) :
  nth_error (pending s) i = Some t ->
  resume t how = Some k ->
  exists s', step (Settle i how) s = Some s'.
Proof.
  intros N R. unfold step, dispatch. rewrite N, R. eauto.
Qed.

(** X1. When [getUserMedia] rejects, whatever it rejects with, the
    error becomes the fixed camera message and nothing else changes:
    [mode], result, preview, the stream handle and the live tracks stay
    as they were, and the request is no longer outstanding. *)
Theorem startCamera_denied (s : AppState) (i : nat) (err : Thrown) :
  nth_error (pending s) i = Some TGetUserMedia ->
  exists s',
    step (Settle i (MediaSettled (inl err))) s = Some s'
    /\ error s' = Some (lit "Camera access denied or unavailable")
    /\ mode s' = mode s
    /\ result s' = result s
    /\ preview s' = preview s
    /\ streamRef s' = streamRef s
    /\ liveTracks s' = liveTracks s
    /\ pending s' = removeNth i (pending s).
Proof.
  intros N.
  destruct (@settle_defined s i _ (MediaSettled (inl err)) _ N eq_refl)
    as [s' H].
  exists s'. split; [exact H|].
  destruct (settle_effect i _ s H) as (t & N' & He).
  rewrite N in N'. injection N' as <-.
  unfold observe in He. injection He as -> -> -> -> -> -> ->. auto 10.
Qed.

(** Scenario 3: Scan is pressed and the permission is denied. *)
Lemma startCamera_denied_witness :
  exists s s',
    run [ClickScan] initial = Some s
    /\ step (Settle 0 (MediaSettled (inl (ErrorObj (lit "Permission denied")))))
            s = Some s'
    /\ mode s' = Home
    /\ error s' = Some (lit "Camera access denied or unavailable").
Proof.
  eexists. eexists. split; [vm_compute; reflexivity|].
  split; [vm_compute; reflexivity|]. split; [reflexivity|].
  destruct (@startCamera_denied
              (mkApp Home None None None (Some []) None None None []
                     [TGetUserMedia])
              0 (ErrorObj (lit "Permission denied")) eq_refl)
    as (s' & H & He & _).
  vm_compute in H. injection H as <-. exact He.
Defined.

Lemma nth_error_last {A : Type} (l : list A) (x : A) :
  nth_error (l ++ [x]) (List.length l) = Some x.
Proof. induction l as [|y l IH]; simpl; [reflexivity|exact IH]. Qed.

(** X2. When [getUserMedia] grants a stream, in whatever state, [mode]
    becomes camera, the handle holds the stream, its tracks are live
    and a timer is outstanding; when that timer fires next the mounted
    viewfinder shows the stream. *)
Theorem camera_granted_then_bound (s : AppState) (i : nat)
        (stream : MediaStream) :
  nth_error (pending s) i = Some TGetUserMedia ->
  exists s1 s2,
    step (Settle i (MediaSettled (inr stream))) s = Some s1
    /\ mode s1 = Camera
    /\ streamRef s1 = Some stream
    /\ liveTracks s1 = liveTracks s ++ getTracks stream
    /\ result s1 = result s /\ error s1 = error s
    /\ pending s1 = removeNth i (pending s) ++ [TBindTimer stream]
    /\ step (Settle (List.length (removeNth i (pending s))) TimerFired) s1
       = Some s2
    /\ videoRef s2 = Some (mkVideo (Some stream))
    /\ mode s2 = Camera
    /\ streamRef s2 = Some stream.
Proof.
  intros N.
  destruct (@settle_defined s i _ (MediaSettled (inr stream)) _ N eq_refl)
    as [s1 H1].
  destruct (settle_effect i _ s H1) as (t & N' & He).
  rewrite N in N'. injection N' as <-.
  unfold observe in He. injection He as Hm Hr He Hp Hs Hl Hpend.
  assert (Nt : nth_error (pending s1) (List.length (removeNth i (pending s)))
               = Some (TBindTimer stream)).
  { rewrite Hpend. apply nth_error_last. }
  assert (Hv : exists v, videoRef s1 = Some v).
  { destruct (viewfinderMounted_step _ _ H1 Hm) as (v & _ & Hv & _). eauto. }
  destruct Hv as [v Hv].
  exists s1.
  exists (render
            (with_video (Some (mkVideo (Some stream)))
               (with_pending
                  (removeNth (List.length (removeNth i (pending s)))
                             (pending s1)) s1))).
  repeat split; auto.
  - unfold step, dispatch. rewrite Nt. cbn [resume].
    unfold startCamera_timeout. unfold_monad.
    destruct s1; simpl in *. subst. reflexivity.
  - unfold render. destruct s1; simpl in *. subst. reflexivity.
  - destruct s1; simpl in *. subst. reflexivity.
  - destruct s1; simpl in *. subst. reflexivity.
Qed.

Lemma camera_granted_then_bound_witness :
  exists s s1 s2,
    run [ClickScan] initial = Some s
    /\ step (Settle 0 (MediaSettled (inr twoTrackStream))) s = Some s1
    /\ step (Settle 0 TimerFired) s1 = Some s2
    /\ videoRef s2 = Some (mkVideo (Some twoTrackStream)).
Proof.
  eexists. eexists. eexists. split; [vm_compute; reflexivity|].
  split; [vm_compute; reflexivity|]. split; [vm_compute; reflexivity|].
  destruct (@camera_granted_then_bound
              (mkApp Home None None None (Some []) None None None []
                     [TGetUserMedia])
              0 twoTrackStream eq_refl)
    as (s1 & s2 & H1 & _ & _ & _ & _ & _ & _ & H2 & Hv & _).
  vm_compute in H1. injection H1 as <-.
  vm_compute in H2. injection H2 as <-. exact Hv.
Defined.

Lemma render_idempotent (s : AppState) : render (render s) = render s.
Proof. unfold render. destruct s as [[] r e p fi v c st live pend]; reflexivity. Qed.

Lemma committed_run (events : list Event) (s : AppState) :
  run events initial = Some s -> committed s.
Proof.
  apply (run_invariant committed).
  - intros e s0 s1 _ H. unfold step in H.
    destruct (dispatch e s0) as [h|]; [|discriminate].
    injection H as <-. apply render_idempotent.
  - reflexivity.
Qed.

(** X3. In a reachable state outside camera mode, a timer of
    [startCamera] that fires finds no video element and changes nothing:
    the state is the same but for the timer being no longer
    outstanding. *)
Theorem stale_timer_does_nothing (events : list Event) (s : AppState)
        (i : nat) (stream : MediaStream) :
  run events initial = Some s ->
  mode s <> Camera ->
  nth_error (pending s) i = Some (TBindTimer stream) ->
  step (Settle i TimerFired) s
  = Some (with_pending (removeNth i (pending s)) s).
Proof.
  intros R Hm N. apply committed_run in R. unfold committed in R.
  unfold step, dispatch. rewrite N. cbn [resume].
  unfold startCamera_timeout. unfold_monad.
  destruct s as [m r e p fi v c st live pend]; simpl in *.
  destruct m; try contradiction;
    unfold render in R; simpl in R; injection R as <- <- <-;
    destruct fi; reflexivity.
Qed.

Lemma stale_timer_does_nothing_witness :
  exists s,
    run scanThenCancel initial = Some s
    /\ mode s = Home
    /\ step (Settle 0 TimerFired) s = Some (with_pending [] s).
Proof.
  eexists. split; [vm_compute; reflexivity|]. split; [reflexivity|].
  refine (@stale_timer_does_nothing scanThenCancel _ 0 twoTrackStream _ _ _);
    [vm_compute; reflexivity | discriminate | reflexivity].
Defined.

(** ** Releasing tracks *)

Lemma stopAll_In (ts live : list Track) (x : Track) :
  In x (stopAll ts live) <-> In x live /\ ~ In x ts.
Proof.
  split.
  - intros H. split; [eapply stopAll_subset, H|].
    intros Hx. exact (stopAll_stopped ts live x Hx H).
  - revert live. induction ts as [|t ts IH]; intros live [Hl Hn]; simpl.
    + exact Hl.
    + apply IH. split.
      * apply filter_In. split; [exact Hl|].
        destruct (N.eqb_spec x t) as [->|_]; [|reflexivity].
        exfalso. apply Hn. now left.
      * intros Hx. apply Hn. now right.
Qed.

(** X4. [stopCamera], and so [handleReset], ends exactly the tracks of
    the stream the handle holds: a track is live afterwards if and only
    if it was live before and is not one of them.  A live track of a
    stream the handle no longer holds stays live. *)
Theorem stopCamera_releases_held (s : AppState) (t : Track) :
  (In t (liveTracks (final (stopCamera s)))
   <-> In t (liveTracks s) /\ ~ In t (tracksOf (streamRef s)))
  /\ (In t (liveTracks (final (handleReset s)))
      <-> In t (liveTracks s) /\ ~ In t (tracksOf (streamRef s))).
Proof.
  rewrite stopCamera_run, handleReset_run. simpl. split; apply stopAll_In.
Qed.

(** ** The result view *)

(** X7. In result mode without an error shown, editing the text and
    then pressing Copy writes exactly the edited text to the clipboard,
    and writes nothing when the text was edited to the empty string;
    copying changes no state. *)
Theorem edit_then_copy (s : AppState) (value : jsstring) :
  mode s = Result ->
  truthy (error s) = false ->
  exists s',
    step (EditResult value) s = Some s'
    /\ result s' = Some value
    /\ offered ClickCopy s' = true
    /\ calls (handleCopy s')
       = match value with
         | [] => []
         | _ :: _ => [CClipboardWrite value]
         end
    /\ final (handleCopy s') = s'
    /\ step ClickCopy s' = Some s'.
Proof.
  intros Hm He.
  assert (Ho : offered (EditResult value) s = true).
  { unfold offered. rewrite Hm, He. reflexivity. }
  unfold step at 1. unfold dispatch. rewrite Ho.
  eexists. split; [reflexivity|].
  unfold textarea_onChange, handleCopy, step, dispatch, offered, render.
  unfold_monad.
  destruct s as [m r e p fi v c st live pend]; simpl in *. subst m.
  simpl. rewrite He. simpl.
  destruct value; simpl; repeat split; reflexivity.
Qed.

Lemma edit_then_copy_witness :
  exists s',
    step (EditResult (lit "Hello, world")) helloResult = Some s'
    /\ calls (handleCopy s') = [CClipboardWrite (lit "Hello, world")].
Proof.
  destruct (@edit_then_copy helloResult (lit "Hello, world") eq_refl eq_refl)
    as (s' & H & _ & _ & Hc & _).
  exists s'. split; [exact H|exact Hc].
Defined.

(** X8. From camera mode and from result mode, with or without an
    error, one control is always offered that leads home in one step,
    with result, error, preview and stream handle null and the file
    input empty: Cancel in camera mode, Try again when an error is
    shown, Scan again otherwise. *)
Theorem always_a_way_home (s : AppState) :
  mode s = Camera \/ mode s = Result ->
  exists e s',
    e = match mode s with
        | Camera => ClickCancel
        | _ => if truthy (error s) then ClickTryAgain else ClickScanAgain
        end
    /\ step e s = Some s'
    /\ mode s' = Home
    /\ result s' = None /\ error s' = None /\ preview s' = None
    /\ streamRef s' = None
    /\ fileInputRef s' = Some []
    /\ pending s' = pending s.
Proof.
  intros Hm.
  assert (Hreset : forall e,
             offered e s = true ->
             dispatch e s = Some handleReset ->
             exists s',
               step e s = Some s'
               /\ mode s' = Home
               /\ result s' = None /\ error s' = None /\ preview s' = None
               /\ streamRef s' = None
               /\ fileInputRef s' = Some []
               /\ pending s' = pending s).
  { intros e _ D. unfold step. rewrite D, handleReset_run.
    eexists. split; [reflexivity|].
    unfold render. simpl. destruct (fileInputRef s); simpl; auto 10. }
  destruct Hm as [Hm | Hm]; rewrite Hm.
  - destruct (Hreset ClickCancel) as [s' H];
      [unfold offered; now rewrite Hm
      |unfold dispatch, offered; now rewrite Hm|].
    exists ClickCancel, s'. auto.
  - destruct (truthy (error s)) eqn:E.
    + destruct (Hreset ClickTryAgain) as [s' H];
        [unfold offered; now rewrite Hm
        |unfold dispatch, offered; now rewrite Hm, E|].
      exists ClickTryAgain, s'. auto.
    + destruct (Hreset ClickScanAgain) as [s' H];
        [unfold offered; now rewrite Hm, E
        |unfold dispatch, offered; now rewrite Hm, E|].
      exists ClickScanAgain, s'. auto.
Qed.

Lemma always_a_way_home_witness :
  exists s',
    step ClickCancel endedCameraState = Some s' /\ mode s' = Home.
Proof.
  destruct (@always_a_way_home endedCameraState (or_introl eq_refl))
    as (e & s' & -> & H & Hm & _).
  exists s'. split; [exact H|exact Hm].
Defined.

(** ** The server route *)

Lemma jseqb_eq (a b : jsstring) : Js.eqb a b = true <-> a = b.
Proof.
  revert b. induction a as [|x a IH]; intros [|y b]; simpl;
    try (split; [discriminate|discriminate]); [tauto|].
  rewrite andb_true_iff, N.eqb_eq, IH. split.
  - intros [-> ->]. reflexivity.
  - intros E. injection E as -> ->. auto.
Qed.

Lemma single_image (parts : list Server.Part) :
  match Server.single (lit "image") parts with
  | inr None => parts = []
  | inr (Some part) => parts = [part] /\ accepted part
  | inl err =>
      Server.errStatus err = None
      /\ parts <> []
      /\ forall part, parts = [part] -> ~ accepted part
  end.
Proof.
  unfold Server.single. destruct parts as [|part rest]; simpl.
  - reflexivity.
  - destruct (Js.eqb (Server.fieldname part) (lit "image")) eqn:Ef.
    + apply jseqb_eq in Ef. unfold Server.fileFilter.
      destruct (startsWith (Server.mimetype part) (lit "image/")) eqn:Em.
      * destruct (Server.fileSize <? Server.size part)%N eqn:Es.
        -- apply N.ltb_lt in Es. split; [reflexivity|].
           split; [discriminate|].
           intros p E (_ & _ & Hs). injection E as <-. lia.
        -- apply N.ltb_ge in Es. destruct rest as [|p2 rest]; simpl.
           ++ unfold accepted. auto.
           ++ destruct (Js.eqb (Server.fieldname p2) (lit "image"));
                (split; [reflexivity|]); (split; [discriminate|]);
                intros p E; discriminate E.
      * split; [reflexivity|]. split; [discriminate|].
        intros p E (_ & Hm & _). injection E as <-. congruence.
    + split; [reflexivity|]. split; [discriminate|].
      intros p E (Hf & _). injection E as <-.
      apply jseqb_eq in Hf. congruence.
Qed.

Lemma postOcr_status_cases (parts : list Server.Part)
      (upstream : Server.Upstream) (now : jsstring) :
  (Server.statusCode (Server.postOcr parts upstream now) = 200%Z
   \/ Server.statusCode (Server.postOcr parts upstream now) = 400%Z
   \/ Server.statusCode (Server.postOcr parts upstream now) = 500%Z)
  /\ (Server.statusCode (Server.postOcr parts upstream now) = 400%Z
      <-> parts = [])
  /\ (forall part text rest,
         parts = [part] ->
         Server.fieldname part = lit "image" ->
         startsWith (Server.mimetype part) (lit "image/") = true ->
         (Server.size part < Server.fileSize)%N ->
         upstream = inr (Some text :: rest) ->
         Server.statusCode (Server.postOcr parts upstream now) = 200%Z
         /\ Server.body (Server.postOcr parts upstream now)
            = successBody text now).
Proof.
  unfold Server.postOcr.
  assert (Hs := single_image parts).
  destruct (Server.single (lit "image") parts) as [err | [part|]].
  - destruct Hs as (He & Hne & Hacc).
    unfold Server.defaultErrorHandler. rewrite He. simpl.
    split; [auto|]. split; [split; [discriminate|contradiction]|].
    intros part text rest E Hf Hm Hsz _. exfalso.
    apply (Hacc part E). unfold accepted. repeat split; auto. lia.
  - destruct Hs as (E & _). subst parts.
    destruct upstream as [details | [|[text|] rest]]; simpl;
      (split; [auto|]); (split; [split; discriminate|]);
      intros p t r _ _ _ _ Hu; try discriminate Hu.
    injection Hu as <- <-. auto.
  - subst parts. simpl. split; [auto|]. split; [tauto|].
    intros p t r E. discriminate E.
Qed.

(** X10. The route answers 200, 400 or 500 and nothing else: 400
    exactly when the request has no file part; 200 only when the
    request has a single file part, in the field [image], with a MIME
    type starting with [image/] and not above the size limit, and the
    first content block of the upstream answer has a text; and such a
    request with a part below the size limit is answered 200 with the
    trimmed text in the body.  Every other request is answered 500. *)
Theorem postOcr_status (parts : list Server.Part)
        (upstream : Server.Upstream) (now : jsstring) :
  let answer := Server.postOcr parts upstream now in
  (Server.statusCode answer = 200%Z \/ Server.statusCode answer = 400%Z
   \/ Server.statusCode answer = 500%Z)
  /\ (Server.statusCode answer = 400%Z <-> parts = [])
  /\ (Server.statusCode answer = 200%Z ->
      exists part text rest,
        parts = [part]
        /\ Server.fieldname part = lit "image"
        /\ startsWith (Server.mimetype part) (lit "image/") = true
        /\ (Server.size part <= Server.fileSize)%N
        /\ upstream = inr (Some text :: rest))
  /\ (forall part text rest,
         parts = [part] ->
         Server.fieldname part = lit "image" ->
         startsWith (Server.mimetype part) (lit "image/") = true ->
         (Server.size part < Server.fileSize)%N ->
         upstream = inr (Some text :: rest) ->
         Server.statusCode answer = 200%Z
         /\ Server.body answer = successBody text now).
Proof.
  cbv zeta.
  destruct (postOcr_status_cases parts upstream now) as (Hcodes & H400 & Hok).
  split; [exact Hcodes|]. split; [exact H400|]. split; [|exact Hok].
  unfold Server.postOcr.
  assert (Hs := single_image parts).
  destruct (Server.single (lit "image") parts) as [err | [part|]].
  - destruct Hs as (He & _).
    unfold Server.defaultErrorHandler. rewrite He. discriminate.
  - destruct Hs as (E & Hf & Hm & Hsz).
    destruct upstream as [details | [|[text|] rest]]; simpl;
      try discriminate.
    intros _. exists part, text, rest. auto 10.
  - discriminate.
Qed.

Lemma postOcr_status_witness :
  Server.statusCode
    (Server.postOcr (uploadOf sampleFile) upstreamHello
                    (lit "2024-01-01T00:00:00.000Z")) = 200%Z.
Proof.
  refine (proj1 (proj2 (proj2 (proj2
            (postOcr_status (uploadOf sampleFile) upstreamHello
                            (lit "2024-01-01T00:00:00.000Z"))))
            _ (lit " Hello world ") [] eq_refl eq_refl eq_refl eq_refl
            eq_refl)).
Defined.

(** ** Trimming *)

Lemma trimStart_head (s : jsstring) : headNotSpace (trimStart s).
Proof.
  induction s as [|c s IH]; simpl; [exact I|].
  destruct (isWhiteSpace c) eqn:E; [exact IH|exact E].
Qed.

Lemma trimStart_fixed (s : jsstring) : headNotSpace s -> trimStart s = s.
Proof. destruct s as [|c s]; simpl; [reflexivity|]. now intros ->. Qed.

Lemma trimStart_suffix (s : jsstring) :
  exists spaces, s = spaces ++ trimStart s.
Proof.
  induction s as [|c s [spaces IH]]; simpl.
  - now exists [].
  - destruct (isWhiteSpace c).
    + exists (c :: spaces). simpl. now rewrite <- IH.
    + now exists [].
Qed.

Lemma trimEnd_prefix (s : jsstring) :
  exists spaces, s = trimEnd s ++ spaces.
Proof.
  unfold trimEnd. destruct (trimStart_suffix (rev s)) as [spaces E].
  exists (rev spaces). rewrite <- rev_app_distr, <- E. now rewrite rev_involutive.
Qed.

Lemma trimEnd_head (s : jsstring) :
  headNotSpace s -> headNotSpace (trimEnd s).
Proof.
  intros H. destruct (trimEnd_prefix s) as [spaces E].
  destruct (trimEnd s) as [|c t]; [exact I|].
  rewrite E in H. exact H.
Qed.

Lemma trimEnd_last (s : jsstring) : headNotSpace (rev (trimEnd s)).
Proof. unfold trimEnd. rewrite rev_involutive. apply trimStart_head. Qed.

Lemma trim_ends (s : jsstring) :
  headNotSpace (trim s) /\ headNotSpace (rev (trim s)).
Proof.
  unfold trim. split.
  - apply trimEnd_head, trimStart_head.
  - apply trimEnd_last.
Qed.

Lemma trim_idempotent (s : jsstring) : trim (trim s) = trim s.
Proof.
  destruct (trim_ends s) as [Hh Hl].
  unfold trim at 1. rewrite (trimStart_fixed _ Hh).
  unfold trimEnd at 1. rewrite (trimStart_fixed _ Hl).
  apply rev_involutive.
Qed.

(** X13. The text the relay sets for a 2xx response with a non-null
    body neither begins nor ends with a whitespace or line-terminator
    code unit, and trimming it again changes nothing. *)
Theorem relay_text_is_trimmed (resp : Response) (body : JsValue)
        (s : AppState) :
  (200 <= status resp <= 299)%Z ->
  json resp = inr body ->
  body <> JNull ->
  exists text,
    result (final (handleOCR_settled (inr resp) s)) = Some text
    /\ (forall c rest, text = c :: rest -> isWhiteSpace c = false)
    /\ (forall c front, text = front ++ [c] -> isWhiteSpace c = false)
    /\ trim text = text.
Proof.
  intros H J Hb. apply ok_iff in H.
  rewrite (settled_json resp s H J Hb).
  match goal with
  | |- context [succeeded ?t s] => exists t
  end.
  split; [destruct s; reflexivity|].
  destruct (textField body) as [t|].
  - destruct (trim_ends t) as [Hh Hl]. split; [|split].
    + intros c rest E. rewrite E in Hh. exact Hh.
    + intros c front E. rewrite E, rev_app_distr in Hl. exact Hl.
    + apply trim_idempotent.
  - split; [|split].
    + intros c rest E. discriminate E.
    + intros c front E. destruct front; discriminate E.
    + reflexivity.
Qed.

Lemma relay_text_is_trimmed_witness :
  exists text,
    result (final (handleOCR_settled (inr responseHello) initial)) = Some text
    /\ trim text = text.
Proof.
  destruct (@relay_text_is_trimmed responseHello helloBody initial)
    as (text & Hr & _ & _ & Ht);
    [split; discriminate | reflexivity | discriminate |].
  exists text. split; [exact Hr|exact Ht].
Defined.

(** ** The client and the server together *)






(** ** The preview and the overwritten stream *)

(** X14. The preview is written by three things only: the load of a
    file reader, the shutter, and a reset.  Every other event, the
    start and the settling of the relay included, leaves it as it
    was. *)
Theorem preview_kept (e : Event) (s s' : AppState) :
  step e s = Some s' ->
  writesPreview e = false ->
  preview s' = preview s.
Proof.
  intros H Hw.
  destruct (userEvent e) eqn:U.
  - assert (He := user_effect e s U H). unfold observe in He.
    destruct e as [[|file files]| | | | | | | |];
      try discriminate U; try discriminate Hw;
      injection He as _ _ _ Hq _ _ _; exact Hq.
  - destruct e; try discriminate U.
    destruct (settle_effect i how s H) as (t & _ & He). unfold observe in He.
    destruct how as [[err | granted] | | [b|] | | fetched];
      try discriminate Hw;
      destruct t; try contradiction;
      try (injection He as _ _ _ Hq _ _ _; exact Hq).
    destruct He as [[x He] | [x He]];
      injection He as _ _ _ Hq _ _ _; exact Hq.
Qed.

Lemma preview_kept_witness :
  exists s s',
    run fileThenPreview initial = Some s
    /\ step (Settle 0 (FetchSettled (inr responseHello))) s = Some s'
    /\ preview s = Some (lit "data:image/jpeg;base64,/9j/")
    /\ preview s' = preview s.
Proof.
  eexists. eexists. split; [vm_compute; reflexivity|].
  split; [vm_compute; reflexivity|]. split; [reflexivity|].
  refine (@preview_kept (Settle 0 (FetchSettled (inr responseHello))) _ _ _ _);
    [vm_compute; reflexivity | reflexivity].
Defined.

Lemma user_defined (e : Event) (s : AppState) :
  userEvent e = true -> offered e s = true ->
  exists s', step e s = Some s'.
Proof.
  intros U Ho. unfold step, dispatch.
  destruct e; try discriminate U; rewrite Ho; eauto.
Qed.

(** X15. The handle holds one stream at a time and [stopCamera] ends
    the tracks of that one only: when a stream is granted while tracks
    of an earlier stream are live, the handle is overwritten, and after
    Cancel the handle is null and [mode] is home while every earlier
    track that is not a track of the new stream is still live. *)
Theorem overwritten_stream_stays_live (s : AppState) (i : nat)
        (second : MediaStream) (t : Track) :
  nth_error (pending s) i = Some TGetUserMedia ->
  In t (liveTracks s) ->
  ~ In t (getTracks second) ->
  exists s1 s2,
    step (Settle i (MediaSettled (inr second))) s = Some s1
    /\ streamRef s1 = Some second
    /\ step ClickCancel s1 = Some s2
    /\ mode s2 = Home
    /\ streamRef s2 = None
    /\ In t (liveTracks s2).
Proof.
  intros N Hl Hn.
  destruct (@settle_defined s i _ (MediaSettled (inr second)) _ N eq_refl)
    as [s1 H1].
  destruct (settle_effect i _ s H1) as (t0 & N' & He).
  rewrite N in N'. injection N' as <-.
  unfold observe in He. injection He as Hm _ _ _ Hs Hlive _.
  destruct (@user_defined ClickCancel s1 eq_refl) as [s2 H2].
  { unfold offered. now rewrite Hm. }
  assert (He2 := user_effect ClickCancel s1 eq_refl H2).
  unfold observe in He2. injection He2 as Hm2 _ _ _ Hs2 Hlive2 _.
  exists s1, s2. repeat split; auto.
  rewrite Hlive2, Hs, Hlive. apply stopAll_In. split.
  - apply in_or_app. now left.
  - exact Hn.
Qed.

Lemma overwritten_stream_stays_live_witness :
  exists s s1 s2,
    run doubleScan initial = Some s
    /\ step (Settle 0 (MediaSettled (inr otherStream))) s = Some s1
    /\ step ClickCancel s1 = Some s2
    /\ mode s2 = Home /\ streamRef s2 = None /\ In 1%N (liveTracks s2).
Proof.
  eexists. eexists. eexists. split; [vm_compute; reflexivity|].
  split; [vm_compute; reflexivity|]. split; [vm_compute; reflexivity|].
  split; [reflexivity|]. split; [reflexivity|].
  destruct (@overwritten_stream_stays_live
              (mkApp Camera None None None None (Some (mkVideo None))
                     (Some (mkCanvas 300 150)) (Some twoTrackStream)
                     [1%N; 2%N] [TGetUserMedia; TBindTimer twoTrackStream])
              0 otherStream 1%N eq_refl (or_introl eq_refl))
    as (s1 & s2 & H1 & _ & H2 & _ & _ & Hin).
  { simpl. intros [E | []]. discriminate E. }
  vm_compute in H1. injection H1 as <-.
  vm_compute in H2. injection H2 as <-. exact Hin.
Defined.

(** ** Picking a file, and the capture pipeline *)

(** X16. At home, a change of the file input with no file does
    nothing to [mode], result, error, preview, stream or outstanding
    operations; with files, [mode] becomes processing at once, any
    earlier result and error are cleared, and a reader and a relay call
    are outstanding for the first file and for no other. *)
Theorem file_pick_starts_relay (s : AppState) :
  mode s = Home ->
  (exists s',
      step (ChangeFile []) s = Some s'
      /\ observe s' = observe s
      /\ fileInputRef s' = Some [])
  /\ forall file others,
       exists s',
         step (ChangeFile (file :: others)) s = Some s'
         /\ mode s' = Processing
         /\ result s' = None /\ error s' = None
         /\ preview s' = preview s
         /\ pending s' = pending s ++ [TReader file; TFetch file].
Proof.
  intros Hm. split.
  - destruct (@user_defined (ChangeFile []) s eq_refl) as [s' H].
    { unfold offered. now rewrite Hm. }
    exists s'. split; [exact H|]. split.
    + exact (user_effect (ChangeFile []) s eq_refl H).
    + unfold step, dispatch, offered in H. rewrite Hm in H.
      injection H as <-. unfold render. destruct s; simpl in *.
      subst. reflexivity.
  - intros file others.
    destruct (@user_defined (ChangeFile (file :: others)) s eq_refl)
      as [s' H].
    { unfold offered. now rewrite Hm. }
    exists s'. split; [exact H|].
    assert (He := user_effect (ChangeFile (file :: others)) s eq_refl H).
    unfold observe in He. injection He as -> -> -> -> _ _ ->. auto 10.
Qed.

Lemma file_pick_starts_relay_witness :
  exists s',
    step (ChangeFile [sampleFile]) initial = Some s'
    /\ mode s' = Processing
    /\ pending s' = [TReader sampleFile; TFetch sampleFile].
Proof.
  destruct (proj2 (@file_pick_starts_relay initial eq_refl) sampleFile [])
    as (s' & H & Hm & _ & _ & _ & Hp).
  exists s'. split; [exact H|]. split; [exact Hm|exact Hp].
Defined.

Lemma runSequential_run (events : list Event) :
  forall s0 s, runSequential events s0 = Some s -> run events s0 = Some s.
Proof.
  induction events as [|e rest IH]; intros s0 s H; simpl in *.
  - exact H.
  - unfold stepSequential in H.
    destruct (userEvent e && existsb writesMode (pending s0));
      [discriminate|].
    destruct (step e s0) as [s1|]; [|discriminate]. now apply IH.
Qed.

Lemma removeNth_last {A : Type} (l : list A) (x : A) :
  removeNth (List.length l) (l ++ [x]) = l.
Proof. induction l as [|y l IH]; simpl; [reflexivity|now rewrite IH]. Qed.

(** X17. The capture pipeline.  In a state of a sequential run with
    [mode] camera and nothing outstanding that writes [mode], pressing
    the shutter, then the blob being encoded, then the relay answering
    2xx with a body other than [null], lead through processing to
    result mode with the trimmed text of the body, no error, the frame
    as preview, the stream handle null and no track live. *)
Theorem capture_pipeline (events : list Event) (s : AppState)
        (frame : jsstring) (b : Blob) (resp : Response) (body : JsValue) :
  runSequential events initial = Some s ->
  mode s = Camera ->
  existsb writesMode (pending s) = false ->
  (200 <= status resp <= 299)%Z ->
  json resp = inr body ->
  body <> JNull ->
  let n := List.length (pending s) in
  exists s1 s2 s3,
    step (ClickShutter frame) s = Some s1
    /\ step (Settle n (BlobEncoded (Some b))) s1 = Some s2
    /\ step (Settle n (FetchSettled (inr resp))) s2 = Some s3
    /\ mode s1 = Camera /\ mode s2 = Processing /\ mode s3 = Result
    /\ streamRef s1 = None /\ liveTracks s1 = []
    /\ result s3
       = Some match textField body with Some t => trim t | None => [] end
    /\ error s3 = None
    /\ preview s3 = Some frame
    /\ streamRef s3 = None /\ liveTracks s3 = []
    /\ pending s3 = pending s.
Proof.
  intros R Hm X Hst J Hb. cbv zeta. apply ok_iff in Hst.
  assert (Inv := @sequentialInv_run events initial s sequentialInv_initial R).
  unfold observe, sequentialInv in Inv.
  destruct Inv as (_ & _ & Hlive & _).
  assert (Hmount : viewfinderMounted s).
  { apply (run_invariant viewfinderMounted
             (fun e s0 s1 _ => viewfinderMounted_step e s0 (s' := s1))
             events initial); [discriminate|].
    now apply runSequential_run. }
  destruct (Hmount Hm) as (v & c & Hv & Hc).
  (* the shutter *)
  destruct (@user_defined (ClickShutter frame) s eq_refl) as [s1 H1].
  { unfold offered. now rewrite Hm. }
  assert (E1 := user_effect (ClickShutter frame) s eq_refl H1).
  destruct E1 as [[[Hn | Hn] _] | E1]; try congruence.
  unfold observe in E1. injection E1 as Hm1 Hr1 He1 Hp1 Hs1 Hl1 Hpend1.
  assert (Hl1' : liveTracks s1 = []).
  { rewrite Hl1.
    destruct (stopAll (tracksOf (streamRef s)) (liveTracks s)) as [|t l] eqn:E;
      [reflexivity|].
    exfalso. apply (@stopAll_covered (tracksOf (streamRef s)) (liveTracks s) t
                      Hlive).
    rewrite E. now left. }
  (* the blob *)
  assert (N1 : nth_error (pending s1) (List.length (pending s)) = Some TToBlob).
  { rewrite Hpend1. apply nth_error_last. }
  destruct (@settle_defined s1 _ _ (BlobEncoded (Some b)) _ N1 eq_refl)
    as [s2 H2].
  destruct (settle_effect _ _ s1 H2) as (t & N' & E2).
  rewrite N1 in N'. injection N' as <-.
  unfold observe in E2. injection E2 as Hm2 Hr2 He2 Hp2 Hs2 Hl2 Hpend2.
  rewrite Hpend1, removeNth_last in Hpend2.
  (* the relay *)
  assert (N2 : nth_error (pending s2) (List.length (pending s))
               = Some (TFetch (capturedFile b))).
  { rewrite Hpend2. apply nth_error_last. }
  assert (H3 := @step_fetch_settled s2 _ _ (inr resp) N2).
  rewrite (settled_json resp _ Hst J Hb) in H3.
  exists s1, s2. eexists. split; [exact H1|]. split; [exact H2|].
  split; [exact H3|].
  unfold render, succeeded. simpl.
  rewrite Hpend2, removeNth_last.
  repeat split; auto; congruence.
Qed.

Lemma capture_pipeline_witness :
  exists s1 s2 s3,
    runSequential scanGranted initial = Some cameraReady
    /\ step (ClickShutter (lit "data:image/jpeg;base64,")) cameraReady
       = Some s1
    /\ step (Settle 1 (BlobEncoded (Some (mkBlob [255%N] jpeg)))) s1 = Some s2
    /\ step (Settle 1 (FetchSettled (inr responseHello))) s2 = Some s3
    /\ mode s3 = Result
    /\ result s3 = Some (lit "Hello world").
Proof.
  destruct (@capture_pipeline scanGranted cameraReady
              (lit "data:image/jpeg;base64,")
              (mkBlob [255%N] jpeg) responseHello helloBody)
    as (s1 & s2 & s3 & H1 & H2 & H3 & _ & _ & Hm & _ & _ & Hr & _);
    [vm_compute; reflexivity | reflexivity | reflexivity
    | split; discriminate | reflexivity | discriminate |].
  exists s1, s2, s3.
  split; [vm_compute; reflexivity|].
  split; [exact H1|]. split; [exact H2|]. split; [exact H3|].
  split; [exact Hm|exact Hr].
Defined.
